(** * ui/Sortable: the sortable controller

    A shallow embedding of [src/ui/Sortable.ts].  The controller is a small
    state machine (Idle / Dragging) wired to DOM listeners, to the
    [SortableInteraction] object that owns one drag gesture, and to a [mitt]
    emitter.  Handlers are written in a state-and-exception monad over a
    [World] that holds the controller's fields, the live document, the
    listener registry, the promise reactions not yet run and the trace of
    every effect the handlers performed. *)

From Stdlib Require Import List ZArith String Bool Arith Lia.
Import ListNotations.
Open Scope string_scope.
Open Scope list_scope.

(** ** Values *)

(** A DOM element, by identity. *)
Definition Node := nat.

(** Index of a [SortableInteraction] object in the object store. *)
Definition Ref := nat.

(** The JavaScript values that are handed to [emitter.emit]. *)
#[local] Set Warnings "-register-all".
Inductive JsValue :=
| JUndefined
| JNull
| JElem (n : Node)
| JArray (l : list JsValue)
| JObject (fields : list (string * JsValue)).

(** [HTMLElement|null] as a JavaScript value. *)
Definition js_of_node (n : option Node) : JsValue :=
  match n with Some e => JElem e | None => JNull end.

(** [a === b] on [HTMLElement|null]. *)
Definition same_element (a b : option Node) : bool :=
  match a, b with
  | Some x, Some y => Nat.eqb x y
  | None, None => true
  | _, _ => false
  end.

(** The fields of a [MouseEvent] the controller reads. *)
Record MouseEvent := {
  target : option Node;
  relatedTarget : option Node;
  screenX : Z;
  screenY : Z;
}.

(** [interface SortableConfig], as the caller passes it. *)
Record SortableConfig := {
  items : string;
  enabled : option bool;
  handle : option string;
}.

(** [merge({handle: ""}, config)]: the configuration the controller keeps. *)
Record MergedConfig := {
  cfg_items : string;
  cfg_enabled : option bool;
  cfg_handle : string;
}.

Definition merge (config : SortableConfig) : MergedConfig :=
  {| cfg_items := items config;
     cfg_enabled := enabled config;
     cfg_handle := match handle config with Some h => h | None => "" end |}.

(** [interface SortableResult].  The type says [item : HTMLElement]; at run
    time the dragged item can be [null] (see [onInteractionStart]), so both
    fields are nullable here. *)
Record SortableResult := {
  item : option Node;
  before : option Node;
}.

Definition js_of_result (r : option SortableResult) : JsValue :=
  match r with
  | None => JUndefined
  | Some r => JObject [("item", js_of_node (item r)); ("before", js_of_node (before r))]
  end.

(** [{items: currentItems, result}], the [SortableOnChangedData] literal. *)
Definition changedData (currentItems : list Node) (result : option SortableResult) : JsValue :=
  JObject [("items", JArray (map JElem currentItems)); ("result", js_of_result result)].

(** ** Listeners and the registry *)

(** Where a listener is attached. *)
Inductive Target :=
| DocumentBody
| Window
| Elem (n : Node).

(** The callbacks the controller registers: the four bound methods of
    [this.listeners] and the intermediate listener made by each [delegate]
    call, which is a fresh closure (its token) over the root and selector. *)
Inductive Listener :=
| LMove
| LEnd
| LMouseOut
| LScroll
| LDelegate (token : nat) (root : Node) (selector : string).

Definition Registration : Type := Target * string * Listener.

Definition Target_eqb (a b : Target) : bool :=
  match a, b with
  | DocumentBody, DocumentBody => true
  | Window, Window => true
  | Elem x, Elem y => Nat.eqb x y
  | _, _ => false
  end.

Definition Listener_eqb (a b : Listener) : bool :=
  match a, b with
  | LMove, LMove => true
  | LEnd, LEnd => true
  | LMouseOut, LMouseOut => true
  | LScroll, LScroll => true
  | LDelegate t r s, LDelegate t' r' s' => Nat.eqb t t' && Nat.eqb r r' && String.eqb s s'
  | _, _ => false
  end.

Definition Registration_eqb (a b : Registration) : bool :=
  let '(t, ty, l) := a in
  let '(t', ty', l') := b in
  Target_eqb t t' && String.eqb ty ty' && Listener_eqb l l'.

(** Modelled from the spec: [on] of [../dom/events] ("plain listener
    attach/detach"), as [addEventListener]: attaching a listener that is
    already attached to the same target for the same type does nothing. *)
Definition attach (r : Registration) (reg : list Registration) : list Registration :=
  if existsb (Registration_eqb r) reg then reg else reg ++ [r].

(** Modelled from the spec: [off] of [../dom/events], as
    [removeEventListener]. *)
Definition detach (r : Registration) (reg : list Registration) : list Registration :=
  filter (fun x => negb (Registration_eqb r x)) reg.

(** The listeners attached to a target for an event type, in the order in
    which they were attached. *)
Definition listenersOf (t : Target) (ty : string) (reg : list Registration) : list Listener :=
  map snd (filter (fun x => Target_eqb t (fst (fst x)) && String.eqb ty (snd (fst x))) reg).

(** ** Collaborators *)

(** The queries of [../dom/traverse] and of the DOM, against the live
    document.  Their code is not among the sources, so they are parameters:
    the controller is verified for every implementation. *)
Class Traverse := {
  Dom : Type;
  (** [element.matches(selector)] *)
  matches : Dom -> Node -> string -> bool;
  (** [closest(element, selector)] *)
  closest : Dom -> Node -> string -> option Node;
  (** [find(selector, context)] *)
  find : Dom -> string -> Node -> list Node;
  (** [findOne(selector)] *)
  findOne : Dom -> string -> option Node;
  (** the test of the intermediate listener that [delegate] installs: does
      an event with this target, seen at [root], concern a descendant that
      matches [selector] *)
  delegated : Dom -> Node -> string -> option Node -> bool;
}.

(** The interface of [./Sortable/SortableInteraction], as the controller
    uses it.  The class is not among the sources, so it is a parameter: the
    controller is verified for every implementation whose constructor and
    methods return.  A method acts on the object and on the live document.
    [drop] and [abort] return a promise: the method itself is the
    synchronous part, and [dropSettled] / [abortSettled] is what the object
    still does until the promise fulfils (a drop fulfils with the result,
    an abort with nothing; neither is ever rejected). *)
Module SortableInteraction.
Class Impl `{Traverse} := {
  t : Type;
  new : Node -> option Node -> string -> Z -> Z -> t;
  start : t -> Dom -> t * Dom;
  onMove : Z -> Z -> t -> Dom -> t * Dom;
  onScroll : t -> Dom -> t * Dom;
  drop : Z -> Z -> t -> Dom -> t * Dom;
  dropSettled : t -> Dom -> t * Dom * SortableResult;
  abort : t -> Dom -> t * Dom;
  abortSettled : t -> Dom -> t * Dom;
  orderHasChanged : t -> Dom -> bool;
}.
End SortableInteraction.

(** Which of the two finalizers made a promise. *)
Inductive EndKind := ByDrop | ByAbort.

(** The promise returned by [drop] / [abort] of the interaction [p_ref]. *)
Record Promise := {
  p_ref : Ref;
  p_kind : EndKind;
}.

(** ** Effects *)

(** Everything a handler does besides computing, in the order it does it. *)
Inductive Effect :=
| EOn (t : Target) (type : string) (l : Listener)
| EOff (t : Target) (type : string) (l : Listener)
| ENew (r : Ref) (container : Node) (draggedItem : option Node) (itemSelector : string) (x y : Z)
| EStart (r : Ref)
| EOnMove (r : Ref) (x y : Z)
| EOnScroll (r : Ref)
| EDrop (r : Ref) (x y : Z)
| EAbort (r : Ref)
| EThen (p : Promise)
| EFulfilled (p : Promise)
| ESetInteraction (v : option Ref)
| ESetDelegateHandler (v : option Listener)
| ESubscribe (event : string) (callback : nat)
| EEmit (event : string) (payload : JsValue)
| EPreventDefault (event : MouseEvent)
| EUncaught (error : string).

(** The emissions of a trace: event name and payload. *)
Fixpoint emissions (tr : list Effect) : list (string * JsValue) :=
  match tr with
  | [] => []
  | EEmit ev p :: tr => (ev, p) :: emissions tr
  | _ :: tr => emissions tr
  end.

(** ** The controller and its world *)

Section Controller.
Context `{Interaction : SortableInteraction.Impl}.

(** The fields of [class Sortable].  [emitter] is the subscriber list of
    the [mitt] instance; [listeners] are the four constants [LMove],
    [LEnd], [LMouseOut] and [LScroll]. *)
Record Sortable := {
  container : Node;
  config : MergedConfig;
  interaction : option Ref;
  emitter : list (string * nat);
  delegateHandler : option Listener;
}.

(** What the handlers act on: the controller ([this]), the live document,
    the [SortableInteraction] objects ever constructed, the listeners
    attached to the document, the promises whose [then]-callback has not
    run yet, the next unused delegate token and the trace of effects. *)
Record World := {
  this : Sortable;
  page : Dom;
  objects : list SortableInteraction.t;
  registry : list Registration;
  reactions : list Promise;
  nextToken : nat;
  trace : list Effect;
}.

Definition set_interaction (v : option Ref) (s : Sortable) : Sortable :=
  {| container := container s; config := config s; interaction := v;
     emitter := emitter s; delegateHandler := delegateHandler s |}.

Definition set_delegateHandler (v : option Listener) (s : Sortable) : Sortable :=
  {| container := container s; config := config s; interaction := interaction s;
     emitter := emitter s; delegateHandler := v |}.

Definition set_emitter (v : list (string * nat)) (s : Sortable) : Sortable :=
  {| container := container s; config := config s; interaction := interaction s;
     emitter := v; delegateHandler := delegateHandler s |}.

Definition with_this (f : Sortable -> Sortable) (w : World) : World :=
  {| this := f (this w); page := page w; objects := objects w; registry := registry w;
     reactions := reactions w; nextToken := nextToken w; trace := trace w |}.

Definition with_page (d : Dom) (w : World) : World :=
  {| this := this w; page := d; objects := objects w; registry := registry w;
     reactions := reactions w; nextToken := nextToken w; trace := trace w |}.

Definition with_objects (o : list SortableInteraction.t) (w : World) : World :=
  {| this := this w; page := page w; objects := o; registry := registry w;
     reactions := reactions w; nextToken := nextToken w; trace := trace w |}.

Definition with_registry (f : list Registration -> list Registration) (w : World) : World :=
  {| this := this w; page := page w; objects := objects w; registry := f (registry w);
     reactions := reactions w; nextToken := nextToken w; trace := trace w |}.

Definition with_reactions (r : list Promise) (w : World) : World :=
  {| this := this w; page := page w; objects := objects w; registry := registry w;
     reactions := r; nextToken := nextToken w; trace := trace w |}.

Definition with_nextToken (n : nat) (w : World) : World :=
  {| this := this w; page := page w; objects := objects w; registry := registry w;
     reactions := reactions w; nextToken := n; trace := trace w |}.

Definition logged (e : Effect) (w : World) : World :=
  {| this := this w; page := page w; objects := objects w; registry := registry w;
     reactions := reactions w; nextToken := nextToken w; trace := trace w ++ [e] |}.

(** *** The monad of handlers: state, and JavaScript exceptions *)

Inductive Outcome (A : Type) :=
| Returned (a : A) (w : World)
| Thrown (error : string) (w : World).
Arguments Returned {A} a w.
Arguments Thrown {A} error w.

Definition M (A : Type) : Type := World -> Outcome A.

Definition ret {A} (a : A) : M A := fun w => Returned a w.

Definition bind {A B} (c : M A) (k : A -> M B) : M B :=
  fun w => match c w with
           | Returned a w' => k a w'
           | Thrown e w' => Thrown e w'
           end.

Definition throw {A} (error : string) : M A := fun w => Thrown error w.

Definition gets {A} (f : World -> A) : M A := fun w => Returned (f w) w.

Definition modify (f : World -> World) : M unit := fun w => Returned tt (f w).

Definition log (e : Effect) : M unit := modify (logged e).

(** The world in which a handler leaves the page.  An exception that
    escapes a listener or a public method does not undo what was done
    before it. *)
Definition world_of {A} (o : Outcome A) : World :=
  match o with
  | Returned _ w => w
  | Thrown e w => logged (EUncaught e) w
  end.

Definition returns {A} (o : Outcome A) : bool :=
  match o with Returned _ _ => true | Thrown _ _ => false end.

Notation "x <- c ;; k" := (bind c (fun x => k))
  (at level 61, c at next level, right associativity).
Notation "c ;; k" := (bind c (fun _ => k))
  (at level 61, right associativity).

(** *** Collaborator calls *)

(** [on(element, type, handler)] of [../dom/events], see [attach]. *)
Definition on (t : Target) (type : string) (l : Listener) : M unit :=
  modify (with_registry (attach (t, type, l))) ;;
  log (EOn t type l).

(** [off(element, type, handler)] of [../dom/events], see [detach]. *)
Definition off (t : Target) (type : string) (l : Listener) : M unit :=
  modify (with_registry (detach (t, type, l))) ;;
  log (EOff t type l).

(** Modelled from the spec: [delegate] of [../dom/events] ("a
    delegated-listener registration returning an opaque detach token"): it
    attaches a new intermediate listener to the element and returns it.
    The handler it guards is always [event => this.onInteractionStart(event)]. *)
Definition delegate (element : Node) (selector type : string) : M Listener :=
  n <- gets nextToken ;;
  modify (with_nextToken (S n)) ;;
  on (Elem element) type (LDelegate n element selector) ;;
  ret (LDelegate n element selector).

(** [emitter.emit(type, evt)] of [mitt]: every handler of [type] is called
    with [evt], the second argument, as is. *)
Definition emit (event : string) (payload : JsValue) : M unit :=
  log (EEmit event payload).

(** [event.preventDefault()] *)
Definition preventDefault (event : MouseEvent) : M unit :=
  log (EPreventDefault event).

Fixpoint update {A} (i : nat) (x : A) (l : list A) : list A :=
  match l, i with
  | [], _ => []
  | _ :: l, O => x :: l
  | y :: l, S i => y :: update i x l
  end.

(** [new SortableInteraction(container, draggedItem, items, x, y)] *)
Definition construct (c : Node) (draggedItem : option Node) (sel : string) (x y : Z) : M Ref :=
  r <- gets (fun w => List.length (objects w)) ;;
  modify (fun w => with_objects (objects w ++ [SortableInteraction.new c draggedItem sel x y]) w) ;;
  log (ENew r c draggedItem sel x y) ;;
  ret r.

(** A method call on the object behind [r].  A reference the controller
    holds always denotes a constructed object (see [Consistent]), so the
    first branch is never taken from a world the controller can reach. *)
Definition invoke (r : Ref) (m : SortableInteraction.t -> Dom -> SortableInteraction.t * Dom)
    (e : Effect) : M unit :=
  fun w =>
    match nth_error (objects w) r with
    | None => Thrown "ReferenceError" w
    | Some o =>
        let '(o', d') := m o (page w) in
        Returned tt (logged e (with_page d' (with_objects (update r o' (objects w)) w)))
    end.

(** A query of the object behind [r], which changes nothing. *)
Definition ask {A} (r : Ref) (q : SortableInteraction.t -> Dom -> A) : M A :=
  fun w =>
    match nth_error (objects w) r with
    | None => Thrown "ReferenceError" w
    | Some o => Returned (q o (page w)) w
    end.

(** The receiver of [this.interaction.method()]: dereferencing [null]
    throws. *)
Definition theInteraction : M Ref :=
  i <- gets (fun w => interaction (this w)) ;;
  match i with
  | Some r => ret r
  | None => throw "TypeError"
  end.

(** [this.interaction = v] *)
Definition assignInteraction (v : option Ref) : M unit :=
  modify (with_this (set_interaction v)) ;;
  log (ESetInteraction v).

(** [this.delegateHandler = v] *)
Definition assignDelegateHandler (v : option Listener) : M unit :=
  modify (with_this (set_delegateHandler v)) ;;
  log (ESetDelegateHandler v).

(** [promise.then(callback)]: the callback waits for the promise. *)
Definition then_ (p : Promise) : M unit :=
  modify (fun w => with_reactions (reactions w ++ [p]) w) ;;
  log (EThen p).

(** *** The methods of [class Sortable] *)

Definition Sortable_new (c : Node) (cfg : SortableConfig) : Sortable :=
  {| container := c; config := merge cfg; interaction := None;
     emitter := []; delegateHandler := None |}.

(** [private onInteractionStart (event : MouseEvent) : void] *)
Definition onInteractionStart (event : MouseEvent) : M unit :=
  i <- gets (fun w => interaction (this w)) ;;
  match i with
  | Some _ => ret tt
  | None =>
      match target event with
      | None => ret tt
      | Some eventTarget =>
          sel <- gets (fun w => cfg_items (config (this w))) ;;
          c <- gets (fun w => container (this w)) ;;
          d <- gets page ;;
          let draggedItem :=
            if matches d eventTarget sel then Some eventTarget
            else closest d eventTarget sel in
          r <- construct c draggedItem sel (screenX event) (screenY event) ;;
          assignInteraction (Some r) ;;
          r <- theInteraction ;;
          invoke r SortableInteraction.start (EStart r) ;;
          on DocumentBody "mousemove" LMove ;;
          on DocumentBody "mouseup" LEnd ;;
          on Window "mouseout" LMouseOut ;;
          on Window "scroll" LScroll ;;
          emit "start" (JArray [js_of_node draggedItem]) ;;
          preventDefault event
      end
  end.

(** [private onDragMove (event : MouseEvent) : void] *)
Definition onDragMove (event : MouseEvent) : M unit :=
  i <- gets (fun w => interaction (this w)) ;;
  match i with
  | None => ret tt
  | Some _ =>
      r <- theInteraction ;;
      invoke r (SortableInteraction.onMove (screenX event) (screenY event))
        (EOnMove r (screenX event) (screenY event))
  end.

(** The callback passed to [endAction.then] in [onDragEnd]. *)
Definition onFinalized (result : option SortableResult) : M unit :=
  sel <- gets (fun w => cfg_items (config (this w))) ;;
  c <- gets (fun w => container (this w)) ;;
  d <- gets page ;;
  let currentItems := find d sel c in
  i <- gets (fun w => interaction (this w)) ;;
  match i with
  | None => ret tt
  | Some _ =>
      r <- theInteraction ;;
      orderHasChanged <- ask r SortableInteraction.orderHasChanged ;;
      assignInteraction None ;;
      emit "end" JUndefined ;;
      if orderHasChanged : bool
      then emit "changed" (changedData currentItems result)
      else ret tt
  end.

(** [private onDragEnd (event? : MouseEvent) : void] *)
Definition onDragEnd (event : option MouseEvent) : M unit :=
  i <- gets (fun w => interaction (this w)) ;;
  match i with
  | None => ret tt
  | Some _ =>
      off DocumentBody "mousemove" LMove ;;
      off DocumentBody "mouseup" LEnd ;;
      off Window "mouseout" LMouseOut ;;
      off Window "scroll" LScroll ;;
      endAction <-
        match event with
        | Some e =>
            r <- theInteraction ;;
            invoke r (SortableInteraction.drop (screenX e) (screenY e))
              (EDrop r (screenX e) (screenY e)) ;;
            ret {| p_ref := r; p_kind := ByDrop |}
        | None =>
            r <- theInteraction ;;
            invoke r SortableInteraction.abort (EAbort r) ;;
            ret {| p_ref := r; p_kind := ByAbort |}
        end ;;
      then_ endAction
  end.

(** [private onMouseOut (event : MouseEvent) : void] *)
Definition onMouseOut (event : MouseEvent) : M unit :=
  d <- gets page ;;
  let html := findOne d "html" in
  if same_element (relatedTarget event) html
  then onDragEnd None
  else ret tt.

(** [private onScroll () : void] *)
Definition onScroll : M unit :=
  i <- gets (fun w => interaction (this w)) ;;
  match i with
  | None => ret tt
  | Some _ =>
      r <- theInteraction ;;
      invoke r SortableInteraction.onScroll (EOnScroll r)
  end.

(** [public on (event, callback) : void] *)
Definition Sortable_on (event : string) (callback : nat) : M unit :=
  modify (with_this (fun s => set_emitter (emitter s ++ [(event, callback)]) s)) ;;
  log (ESubscribe event callback).

(** [public destroy () : void] *)
Definition destroy : M unit :=
  onDragEnd None ;;
  h <- gets (fun w => delegateHandler (this w)) ;;
  match h with
  | Some l =>
      c <- gets (fun w => container (this w)) ;;
      off (Elem c) "mousedown" l ;;
      assignDelegateHandler None
  | None => ret tt
  end.

(** [public init () : void] *)
Definition init : M unit :=
  h <- gets (fun w => delegateHandler (this w)) ;;
  match h with
  | Some _ => destroy
  | None => ret tt
  end ;;
  c <- gets (fun w => container (this w)) ;;
  items <- gets (fun w => cfg_items (config (this w))) ;;
  handle <- gets (fun w => cfg_handle (config (this w))) ;;
  l <- delegate c (String.append items (String.append " " handle)) "mousedown" ;;
  assignDelegateHandler (Some l).

(** *** The page around the controller *)

(** The promise [p] fulfils: the object completes its finalizer and hands
    over the value the promise resolves with. *)
Definition settle (p : Promise) : M (option SortableResult) :=
  fun w =>
    match nth_error (objects w) (p_ref p) with
    | None => Thrown "ReferenceError" w
    | Some o =>
        match p_kind p with
        | ByDrop =>
            let '(o', d', res) := SortableInteraction.dropSettled o (page w) in
            Returned (Some res)
              (logged (EFulfilled p)
                 (with_page d' (with_objects (update (p_ref p) o' (objects w)) w)))
        | ByAbort =>
            let '(o', d') := SortableInteraction.abortSettled o (page w) in
            Returned None
              (logged (EFulfilled p)
                 (with_page d' (with_objects (update (p_ref p) o' (objects w)) w)))
        end
    end.

Definition remove_nth {A} (k : nat) (l : list A) : list A :=
  firstn k l ++ skipn (S k) l.

(** The [k]-th waiting promise fulfils and its [then]-callback runs. *)
Definition fulfil (k : nat) : M unit :=
  ps <- gets reactions ;;
  match nth_error ps k with
  | None => ret tt
  | Some p =>
      modify (with_reactions (remove_nth k ps)) ;;
      result <- settle p ;;
      onFinalized result
  end.

(** What each registered callback does when the browser calls it. *)
Definition handleEvent (l : Listener) (event : MouseEvent) : M unit :=
  match l with
  | LMove => onDragMove event
  | LEnd => onDragEnd (Some event)
  | LMouseOut => onMouseOut event
  | LScroll => onScroll
  | LDelegate _ root selector =>
      d <- gets page ;;
      if delegated d root selector (target event)
      then onInteractionStart event
      else ret tt
  end.

(** The browser calls the listeners that were attached when the event
    arrived, in order, skipping one that was detached in the meantime. *)
Fixpoint deliver (t : Target) (type : string) (ls : list Listener) (event : MouseEvent)
    (w : World) : World :=
  match ls with
  | [] => w
  | l :: ls =>
      deliver t type ls event
        (if existsb (Registration_eqb (t, type, l)) (registry w)
         then world_of (handleEvent l event w)
         else w)
  end.

Definition dispatch (t : Target) (type : string) (event : MouseEvent) (w : World) : World :=
  deliver t type (listenersOf t type (registry w)) event w.

(** What can happen to a controller: its public methods are called, the
    browser delivers an event, a waiting promise fulfils. *)
Inductive Action :=
| Init
| Destroy
| Subscribe (event : string) (callback : nat)
| Dispatch (t : Target) (type : string) (event : MouseEvent)
| Fulfil (k : nat).

Definition step (w : World) (a : Action) : World :=
  match a with
  | Init => world_of (init w)
  | Destroy => world_of (destroy w)
  | Subscribe event callback => world_of (Sortable_on event callback w)
  | Dispatch t type event => dispatch t type event w
  | Fulfil k => world_of (fulfil k w)
  end.

Definition run (w : World) (l : list Action) : World := fold_left step l w.

(** [new Sortable(container, config)] on a page where nothing else is
    attached. *)
Definition boot (c : Node) (cfg : SortableConfig) (d : Dom) : World :=
  {| this := Sortable_new c cfg; page := d; objects := []; registry := [];
     reactions := []; nextToken := 0; trace := [] |}.

(** The two states of the controller. *)
Definition Idle (w : World) : Prop := interaction (this w) = None.

Definition Dragging (w : World) (r : Ref) (o : SortableInteraction.t) : Prop :=
  interaction (this w) = Some r /\ nth_error (objects w) r = Some o.

(** The listeners [onInteractionStart] attaches at document and window
    level. *)
Definition wideListeners : list Registration :=
  [ (DocumentBody, "mousemove", LMove); (DocumentBody, "mouseup", LEnd);
    (Window, "mouseout", LMouseOut); (Window, "scroll", LScroll) ].

Definition isDelegate (x : Registration) : bool :=
  match snd x with LDelegate _ _ _ => true | _ => false end.
End Controller.

Arguments Returned {_ _ A} a w.
Arguments Thrown {_ _ A} error w.

(** ** A page with one list, and the interaction of the specification

    The controller is verified against every [Traverse] and every
    [SortableInteraction.Impl].  What follows is one of each, on which the
    scenarios of the specification run. *)

Module ListPage.
(** A document made of the root element, one list element, the items of
    the list in document order (each [rowHeight] high, stacked from the
    top), and the elements inside an item (its grips). *)
Record doc := {
  html : Node;
  list_element : Node;
  rows : list Node;
  grips : list (Node * Node);
}.

Definition rowHeight : Z := 10.

Definition isRow (d : doc) (n : Node) : bool := existsb (Nat.eqb n) (rows d).

Definition rowOf (d : doc) (n : Node) : option Node :=
  match List.find (fun g => Nat.eqb (fst g) n) (grips d) with
  | Some g => if isRow d (snd g) then Some (snd g) else None
  | None => None
  end.

Definition with_rows (l : list Node) (d : doc) : doc :=
  {| html := html d; list_element := list_element d; rows := l; grips := grips d |}.

(** [node.nextElementSibling], among [l]. *)
Fixpoint nextSibling (l : list Node) (n : Node) : option Node :=
  match l with
  | [] => None
  | x :: l => if Nat.eqb x n then hd_error l else nextSibling l n
  end.

Definition without (n : Node) (l : list Node) : list Node :=
  filter (fun x => negb (Nat.eqb x n)) l.

Fixpoint placeBefore (n : Node) (anchor : Node) (l : list Node) : list Node :=
  match l with
  | [] => [n]
  | x :: l => if Nat.eqb x anchor then n :: x :: l else x :: placeBefore n anchor l
  end.

(** [container.insertBefore(n, anchor)]; [null] appends. *)
Definition insertBefore (n : Node) (anchor : option Node) (d : doc) : doc :=
  match anchor with
  | Some a => with_rows (placeBefore n a (without n (rows d))) d
  | None => with_rows (without n (rows d) ++ [n]) d
  end.

(** The item whose box holds the vertical position [y]. *)
Definition rowAt (d : doc) (y : Z) : option Node :=
  if (y <? 0)%Z then None else nth_error (rows d) (Z.to_nat (y / rowHeight)).

#[global] Instance traverse : Traverse := {|
  Dom := doc;
  matches d n sel := String.eqb sel ".item" && isRow d n;
  closest d n sel := if String.eqb sel ".item" then rowOf d n else None;
  find d sel c := if String.eqb sel ".item" && Nat.eqb c (list_element d) then rows d else [];
  findOne d sel := if String.eqb sel "html" then Some (html d) else None;
  delegated d root sel tgt :=
    match tgt with
    | Some n =>
        Nat.eqb root (list_element d) && String.eqb sel ".item " &&
        (isRow d n || match rowOf d n with Some _ => true | None => false end)
    | None => false
    end;
|}.
End ListPage.

Module SpecInteraction.
Import ListPage.

(** Modelled from the spec: the state of [SortableInteraction], which is
    not among the sources ("the dragged Item, its Container, the
    originating pointer coordinates, the current pointer coordinates, the
    item's original sibling position, and its current computed before
    anchor"). *)
Record state := {
  container : Node;
  draggedItem : option Node;
  itemSelector : string;
  originX : Z;
  originY : Z;
  currentX : Z;
  currentY : Z;
  originalBefore : option Node;
  currentBefore : option Node;
  dragClass : bool;
}.

Definition moved (x y : Z) (b : option Node) (s : state) : state :=
  {| container := container s; draggedItem := draggedItem s; itemSelector := itemSelector s;
     originX := originX s; originY := originY s; currentX := x; currentY := y;
     originalBefore := originalBefore s; currentBefore := b; dragClass := dragClass s |}.

Definition marked (c : bool) (s : state) : state :=
  {| container := container s; draggedItem := draggedItem s; itemSelector := itemSelector s;
     originX := originX s; originY := originY s; currentX := currentX s; currentY := currentY s;
     originalBefore := originalBefore s; currentBefore := currentBefore s; dragClass := c |}.

Definition new (c : Node) (i : option Node) (sel : string) (x y : Z) : state :=
  {| container := c; draggedItem := i; itemSelector := sel;
     originX := x; originY := y; currentX := x; currentY := y;
     originalBefore := None; currentBefore := None; dragClass := false |}.

(** Modelled from the spec: [start()] "captures the dragged item's current
    sibling position as the baseline before anchor; applies any transient
    visual state"; no DOM reorder. *)
Definition start (s : state) (d : doc) : state * doc :=
  let b := match draggedItem s with
           | Some i => nextSibling (rows d) i
           | None => None
           end in
  ({| container := container s; draggedItem := draggedItem s; itemSelector := itemSelector s;
      originX := originX s; originY := originY s; currentX := currentX s; currentY := currentY s;
      originalBefore := b; currentBefore := b; dragClass := true |}, d).

(** Modelled from the spec: [onMove(x, y)] finds the sibling the pointer
    overlaps, the dragged item excluded, and if the anchor this gives
    differs from the current one moves the dragged item before that
    sibling (dragging up) or after it (dragging down).  The overlap rule,
    which the spec leaves open, is: the row whose box holds [y]. *)
Definition onMove (x y : Z) (s : state) (d : doc) : state * doc :=
  match draggedItem s, rowAt d y with
  | Some i, Some over =>
      if Nat.eqb over i then (moved x y (currentBefore s) s, d)
      else
        let anchor := if (currentY s <? y)%Z
                      then nextSibling (without i (rows d)) over
                      else Some over in
        if same_element anchor (currentBefore s)
        then (moved x y (currentBefore s) s, d)
        else (moved x y anchor s, insertBefore i anchor d)
  | _, _ => (moved x y (currentBefore s) s, d)
  end.

(** Modelled from the spec: [onScroll()] "recomputes ... without requiring
    new pointer coordinates". *)
Definition onScroll (s : state) (d : doc) : state * doc :=
  onMove (currentX s) (currentY s) s d.

(** Modelled from the spec: [drop(x, y)] "finalizes with one last onMove
    application at the given coordinates, then produces a Result
    describing the final anchor", asynchronously. *)
Definition drop (x y : Z) (s : state) (d : doc) : state * doc :=
  onMove x y s d.

Definition dropSettled (s : state) (d : doc) : state * doc * SortableResult :=
  (marked false s, d, {| item := draggedItem s; before := currentBefore s |}).

(** Modelled from the spec: [abort()]: "any visual drag state is cleared
    and the dragged Item is restored to its pre-drag DOM position (undoing
    intermediate preview moves) when invoked". *)
Definition abort (s : state) (d : doc) : state * doc :=
  (moved (currentX s) (currentY s) (originalBefore s) s,
   match draggedItem s with
   | Some i => insertBefore i (originalBefore s) d
   | None => d
   end).

Definition abortSettled (s : state) (d : doc) : state * doc :=
  (marked false s, d).

(** Modelled from the spec: [orderHasChanged()] "compares the item's
    original sibling anchor to its final anchor (by identity, not by
    index)". *)
Definition orderHasChanged (s : state) (d : doc) : bool :=
  negb (same_element (originalBefore s) (currentBefore s)).

#[global] Instance impl : SortableInteraction.Impl := {|
  SortableInteraction.t := state;
  SortableInteraction.new := new;
  SortableInteraction.start := start;
  SortableInteraction.onMove := onMove;
  SortableInteraction.onScroll := onScroll;
  SortableInteraction.drop := drop;
  SortableInteraction.dropSettled := dropSettled;
  SortableInteraction.abort := abort;
  SortableInteraction.abortSettled := abortSettled;
  SortableInteraction.orderHasChanged := orderHasChanged;
|}.
End SpecInteraction.

(** ** The list [A, B, C] of the specification's scenarios *)

Module Scenario.
Definition A : Node := 1.
Definition B : Node := 2.
Definition C : Node := 3.

(** Element 0 is [html], element 10 the list, elements 11 to 13 are
    grips inside A, B and C, and element 20 is outside every item. *)
Definition page0 : ListPage.doc :=
  {| ListPage.html := 0; ListPage.list_element := 10;
     ListPage.rows := [A; B; C];
     ListPage.grips := [(11, A); (12, B); (13, C)] |}.

Definition cfg : SortableConfig :=
  {| items := ".item"; enabled := None; handle := None |}.

Definition at_ (n : Node) (y : Z) : MouseEvent :=
  {| target := Some n; relatedTarget := None; screenX := 0; screenY := y |}.

Definition leaving (to : option Node) : MouseEvent :=
  {| target := Some 10; relatedTarget := to; screenX := 0; screenY := 0 |}.

(** The controller, constructed and initialised. *)
Definition ready : World := run (boot 10 cfg page0) [Init].

(** A is picked up. *)
Definition dragging : World := run ready [Dispatch (Elem 10) "mousedown" (at_ A 5)].

(** The interaction of that gesture, as [start] left it. *)
Definition held : SpecInteraction.state :=
  {| SpecInteraction.container := 10;
     SpecInteraction.draggedItem := Some A;
     SpecInteraction.itemSelector := ".item";
     SpecInteraction.originX := 0;
     SpecInteraction.originY := 5;
     SpecInteraction.currentX := 0;
     SpecInteraction.currentY := 5;
     SpecInteraction.originalBefore := Some B;
     SpecInteraction.currentBefore := Some B;
     SpecInteraction.dragClass := true |}.

(** A has been dragged over C: the preview order is [B, C, A]. *)
Definition overC : World := run dragging [Dispatch DocumentBody "mousemove" (at_ A 25)].

Definition heldOverC : SpecInteraction.state :=
  {| SpecInteraction.container := 10;
     SpecInteraction.draggedItem := Some A;
     SpecInteraction.itemSelector := ".item";
     SpecInteraction.originX := 0;
     SpecInteraction.originY := 5;
     SpecInteraction.currentX := 0;
     SpecInteraction.currentY := 25;
     SpecInteraction.originalBefore := Some B;
     SpecInteraction.currentBefore := None;
     SpecInteraction.dragClass := true |}.
End Scenario.

(** ** Vocabulary of the statements *)

Section Vocabulary.
Context `{Interaction : SortableInteraction.Impl}.

(** The item a pointer-down on [n] picks up: [n] itself when it matches
    the items selector, else its closest matching ancestor. *)
Definition pickedItem (w : World) (n : Node) : option Node :=
  if matches (page w) n (cfg_items (config (this w)))
  then Some n
  else closest (page w) n (cfg_items (config (this w))).

(** The finalizer [onDragEnd] calls: [drop] with an event, [abort]
    without. *)
Definition finalizer (event : option MouseEvent)
    : SortableInteraction.t -> Dom -> SortableInteraction.t * Dom :=
  match event with
  | Some e => SortableInteraction.drop (screenX e) (screenY e)
  | None => SortableInteraction.abort
  end.

Definition finalizerCall (event : option MouseEvent) (r : Ref) : Effect :=
  match event with
  | Some e => EDrop r (screenX e) (screenY e)
  | None => EAbort r
  end.

Definition finalizerPromise (event : option MouseEvent) (r : Ref) : Promise :=
  {| p_ref := r; p_kind := match event with Some _ => ByDrop | None => ByAbort end |}.

(** What remains of the object, of the document and of the promise's
    value once a promise of this kind has fulfilled. *)
Definition settled (k : EndKind) (o : SortableInteraction.t) (d : Dom)
    : SortableInteraction.t * Dom * option SortableResult :=
  match k with
  | ByDrop =>
      (fst (fst (SortableInteraction.dropSettled o d)),
       snd (fst (SortableInteraction.dropSettled o d)),
       Some (snd (SortableInteraction.dropSettled o d)))
  | ByAbort =>
      (fst (SortableInteraction.abortSettled o d),
       snd (SortableInteraction.abortSettled o d),
       None)
  end.

(** The object, the document and the promise's value at the end of a
    gesture that [onDragEnd event] finalizes, when the promise fulfils
    with nothing in between. *)
Definition finalState (event : option MouseEvent) (o : SortableInteraction.t) (d : Dom)
    : SortableInteraction.t * Dom * option SortableResult :=
  settled (p_kind (finalizerPromise event 0))
    (fst (finalizer event o d)) (snd (finalizer event o d)).

(** The registry once the four wide listeners are detached. *)
Definition withoutWide (reg : list Registration) : list Registration :=
  detach (Window, "scroll", LScroll)
    (detach (Window, "mouseout", LMouseOut)
       (detach (DocumentBody, "mouseup", LEnd)
          (detach (DocumentBody, "mousemove", LMove) reg))).

(** The registry once the four wide listeners are attached. *)
Definition withWide (reg : list Registration) : list Registration :=
  attach (Window, "scroll", LScroll)
    (attach (Window, "mouseout", LMouseOut)
       (attach (DocumentBody, "mouseup", LEnd)
          (attach (DocumentBody, "mousemove", LMove) reg))).

(** The notifications of the [then]-callback, given what
    [orderHasChanged()] answered. *)
Definition notifications (changed : bool) (currentItems : list Node)
    (result : option SortableResult) : list Effect :=
  EEmit "end" JUndefined ::
  (if changed then [EEmit "changed" (changedData currentItems result)] else []).

(** The world after the block [if (this.delegateHandler) { off(...);
    this.delegateHandler = null; }] of [destroy]. *)
Definition undelegated (w : World) : World :=
  match delegateHandler (this w) with
  | Some l =>
      {| this := set_delegateHandler None (this w);
         page := page w;
         objects := objects w;
         registry := detach (Elem (container (this w)), "mousedown", l) (registry w);
         reactions := reactions w;
         nextToken := nextToken w;
         trace := trace w ++
           [ EOff (Elem (container (this w))) "mousedown" l;
             ESetDelegateHandler None ] |}
  | None => w
  end.

(** The listener a call of [delegate] makes in [w]. *)
Definition freshDelegate (w : World) : Listener :=
  LDelegate (nextToken w) (container (this w))
    (String.append (cfg_items (config (this w)))
       (String.append " " (cfg_handle (config (this w))))).

(** The world after [this.delegateHandler = delegate(...)] of [init]. *)
Definition delegating (w : World) : World :=
  {| this := set_delegateHandler (Some (freshDelegate w)) (this w);
     page := page w;
     objects := objects w;
     registry := attach (Elem (container (this w)), "mousedown", freshDelegate w) (registry w);
     reactions := reactions w;
     nextToken := S (nextToken w);
     trace := trace w ++
       [ EOn (Elem (container (this w))) "mousedown" (freshDelegate w);
         ESetDelegateHandler (Some (freshDelegate w)) ] |}.

(** The ways a gesture ends. *)
Inductive Ending :=
| Released (event : MouseEvent)
| LeftWindow (event : MouseEvent)
| Destroyed.

Definition endGesture (x : Ending) : M unit :=
  match x with
  | Released e => onDragEnd (Some e)
  | LeftWindow e => onMouseOut e
  | Destroyed => destroy
  end.

(** The event [onDragEnd] is given on each way. *)
Definition endEvent (x : Ending) : option MouseEvent :=
  match x with
  | Released e => Some e
  | LeftWindow _ => None
  | Destroyed => None
  end.

(** The delegated listeners among the registrations. *)
Definition delegates (reg : list Registration) : list Registration :=
  filter isDelegate reg.

(** A registration with the token of a delegated listener forgotten. *)
Definition anonymous (x : Registration) : Registration :=
  match x with
  | (t, ty, LDelegate _ root selector) => (t, ty, LDelegate 0 root selector)
  | _ => x
  end.

(** What every world the controller can be in satisfies: the delegated
    listener attached is the one [delegateHandler] refers to, tokens in
    use are below the next one, and the interaction and the waiting
    promises refer to constructed objects. *)
Record Consistent (w : World) : Prop := {
  delegate_installed :
    delegates (registry w) =
    match delegateHandler (this w) with
    | Some l => [(Elem (container (this w)), "mousedown", l)]
    | None => []
    end;
  tokens_used :
    forall t ty token root selector,
      In (t, ty, LDelegate token root selector) (registry w) -> token < nextToken w;
  interaction_alive :
    forall r, interaction (this w) = Some r -> r < List.length (objects w);
  promises_alive :
    forall p, In p (reactions w) -> p_ref p < List.length (objects w);
}.

(** A handler that, from a consistent world, returns in a consistent
    world. *)
Definition Safe (c : M unit) : Prop :=
  forall w, Consistent w -> exists w', c w = Returned tt w' /\ Consistent w'.

(** Where the controller is in the events it has emitted: nothing pending
    ([Quiet]), a [start] without its [end] yet ([Busy]), or an [end] that a
    [changed] may still follow ([Ended]). *)
Inductive Phase := Quiet | Busy | Ended.

(** One emission more.  [None] is an emission out of turn: a [start] during
    a gesture, an [end] without a gesture, a [changed] that does not follow
    an [end] directly. *)
Definition advance (ph : option Phase) (e : string * JsValue) : option Phase :=
  match ph with
  | None => None
  | Some ph =>
      if String.eqb (fst e) "start"
      then match ph with Busy => None | _ => Some Busy end
      else if String.eqb (fst e) "end"
      then match ph with Busy => Some Ended | _ => None end
      else if String.eqb (fst e) "changed"
      then match ph with Ended => Some Quiet | _ => None end
      else None
  end.

Definition phase (es : list (string * JsValue)) : option Phase :=
  fold_left advance es (Some Quiet).

(** The emissions so far are whole gestures, [start] then [end] then at
    most one [changed], the last of them open exactly when the controller
    holds an interaction. *)
Definition Bracketed (w : World) : Prop :=
  match phase (emissions (trace w)) with
  | Some Busy => interaction (this w) <> None
  | Some _ => interaction (this w) = None
  | None => False
  end.

(** How a handler may move the controller from [w] to [w']: not at all, by
    an accepted pickup, or by the end of the gesture. *)
Definition Follows (w w' : World) : Prop :=
  (emissions (trace w') = emissions (trace w) /\
   interaction (this w') = interaction (this w)) \/
  (interaction (this w) = None /\ interaction (this w') <> None /\
   exists payload, emissions (trace w') = emissions (trace w) ++ [("start", payload)]) \/
  (interaction (this w) <> None /\ interaction (this w') = None /\
   exists (changed : bool) payload,
     emissions (trace w') =
     emissions (trace w) ++
     ("end", JUndefined) :: (if changed then [("changed", payload)] else [])).

(** An effect other than an exception that escaped. *)
Definition caught (e : Effect) : Prop :=
  match e with
  | EUncaught _ => False
  | _ => True
  end.

(** The selector [init] delegates on: [`${items} ${handle}`]. *)
Definition delegateSelector (w : World) : string :=
  String.append (cfg_items (config (this w)))
    (String.append " " (cfg_handle (config (this w)))).

(** What holds besides [Consistent] in every world the controller can be
    in: no exception has escaped, the listeners attached are the four wide
    ones or delegated ones, and the delegated listener is on the
    controller's container for its selector. *)
Record Tidy (w : World) : Prop := {
  no_exception : Forall caught (trace w);
  own_listeners :
    forall x, In x (registry w) -> isDelegate x = false -> In x wideListeners;
  delegate_shape :
    forall l, delegateHandler (this w) = Some l ->
              exists token, l = LDelegate token (container (this w)) (delegateSelector w);
}.

(** What no handler changes, from [w] to [w']. *)
Record Frame (w w' : World) : Prop := {
  frame_trace : exists es, trace w' = trace w ++ es /\ Forall caught es;
  frame_registry :
    forall x, In x (registry w') ->
              In x (registry w) \/ In x wideListeners \/ isDelegate x = true;
  frame_container : container (this w') = container (this w);
  frame_config : config (this w') = config (this w);
  frame_delegate :
    delegateHandler (this w') = delegateHandler (this w) \/
    delegateHandler (this w') = None \/
    exists token,
      delegateHandler (this w') =
      Some (LDelegate token (container (this w)) (delegateSelector w));
}.
End Vocabulary.

(** * The fetch client

    [class FetchClient] of [src/unnamed/part_000].  [request] talks to four
    collaborators (the loader, the toast manager, the console and [fetch])
    and settles the promise it returns; what it does is the list of these
    effects, in order.  The option and response types ([@types/mojave]) are
    not among the sources, so the fields are JavaScript values, of which the
    code only tests the truthiness or passes them on. *)

Module Fetch.

Inductive Value :=
| Undefined
| Null
| Bool (b : bool)
| Str (s : string)
| Obj (id : nat).

(** [v ? ... : ...], [if (v)], [!v], [v && ...] *)
Definition truthy (v : Value) : bool :=
  match v with
  | Undefined => false
  | Null => false
  | Bool b => b
  | Str s => negb (String.eqb s "")
  | Obj _ => true
  end.

(** [false !== v] *)
Definition notFalse (v : Value) : bool :=
  match v with
  | Bool false => false
  | _ => true
  end.

(** A headers object: its own properties, in insertion order. *)
Definition Headers : Type := list (string * string).

(** [headers[key] = value] *)
Fixpoint assign (key value : string) (h : Headers) : Headers :=
  match h with
  | [] => [(key, value)]
  | (k, v) :: h => if String.eqb k key then (key, value) :: h else (k, v) :: assign key value h
  end.

(** [headers[key]] *)
Fixpoint lookup (key : string) (h : Headers) : option string :=
  match h with
  | [] => None
  | (k, v) :: h => if String.eqb k key then Some v else lookup key h
  end.

(** [mojaveIntegration.FetchOptions]; an absent field is [Undefined], absent
    headers are [None]. *)
Record FetchOptions := {
  data : Value;
  json : Value;
  headers : option Headers;
  method : Value;
  loading : Value;
  handleGenericRequestErrors : Value;
}.

(** The second argument of [fetch]. *)
Record RequestInit := {
  init_body : Value;
  init_cache : string;
  init_credentials : string;
  init_headers : Headers;
  init_method : Value;
}.

(** [response.message] *)
Record Message := {
  text : Value;
  impact : Value;
  action : Value;
}.

(** [mojave.AjaxResponse], the parsed body of an answer. *)
Record AjaxResponse := {
  ok : Value;
  status : Value;
  response_data : Value;
  redirect : Value;
  message : option Message;
}.

(** [mojave.AjaxResponseData], what the returned promise resolves with. *)
Record AjaxResponseData := {
  resolved_ok : Value;
  resolved_status : Value;
  resolved_data : Value;
}.

(** How the network answers: [fetch] rejects, or the body is no JSON
    ([raw.json()] rejects), or the body is parsed. *)
Inductive Reply :=
| Failed (error : Value)
| NotJson (error : Value)
| Answered (response : AjaxResponse).

Inductive Effect :=
| LoaderStart (message : Value)
| LoaderEnd
| Fetched (url : string) (init : RequestInit)
| ToastAdded (text impact action : Value)
| ConsoleError (message : string) (error : Value)
| Redirected (href : Value)
| Resolved (value : AjaxResponseData)
| Rejected.

(** The fields of [class FetchClient]; [loader] is [null] or a loader. *)
Record FetchClient := {
  loader : option nat;
  failureMessage : string;
}.

Section Request.
(** [JSON.stringify], and [extend] of [../extend], which is not among the
    sources. *)
Variable stringify : Value -> string.
Variable extend : Headers -> Headers -> Headers.

(** [options.loading && this.loader] *)
Definition showsLoader (client : FetchClient) (options : FetchOptions) : bool :=
  truthy (loading options) && match loader client with Some _ => true | None => false end.

(** The request [request] builds: lines 36 to 62, and the literal passed to
    [fetch]. *)
Definition requestInit (options : FetchOptions) : RequestInit :=
  let headers0 :=
    extend (match headers options with Some h => h | None => [] end)
      [("Accept", "application/json"); ("X-Requested-With", "XMLHttpRequest")] in
  let data :=
    if truthy (json options) then Str (stringify (json options)) else data options in
  let headers1 :=
    if truthy (json options)
    then assign "Content-Type" "application/json; charset=UTF-8" headers0
    else headers0 in
  let method :=
    if truthy (method options) then method options
    else if truthy data then Str "post" else Str "get" in
  {| init_body := data;
     init_cache := "no-cache";
     init_credentials := "include";
     init_headers := headers1;
     init_method := method |}.

(** What [request] does before it returns the promise. *)
Definition begun (client : FetchClient) (url : string) (options : FetchOptions)
    : list Effect :=
  (if showsLoader client options then [LoaderStart (loading options)] else []) ++
  [Fetched url (requestInit options)].

(** The handlers of the promise chain, for each reply. *)
Definition handled (client : FetchClient) (options : FetchOptions) (reply : Reply)
    : list Effect :=
  match reply with
  | Answered response =>
      (match message response with
       | Some m => [ToastAdded (text m) (impact m) (action m)]
       | None => []
       end) ++
      (if truthy (redirect response) then [Redirected (redirect response)] else []) ++
      [Resolved {| resolved_ok := ok response;
                   resolved_status := status response;
                   resolved_data := response_data response |}]
  | NotJson error =>
      (if notFalse (handleGenericRequestErrors options)
       then [ ConsoleError "Request failed (json)" error;
              ToastAdded (Str (failureMessage client)) (Str "negative") Undefined ]
       else []) ++
      [Rejected]
  | Failed error =>
      (if notFalse (handleGenericRequestErrors options)
       then [ ConsoleError "Request failed (generic)" error;
              ToastAdded (Str (failureMessage client)) (Str "negative") Undefined ]
       else []) ++
      [Rejected]
  end.

(** The [finally] callback. *)
Definition finished (client : FetchClient) (options : FetchOptions) : list Effect :=
  if showsLoader client options then [LoaderEnd] else [].

(** [public request (url, options)], with the reply of the network. *)
Definition request (client : FetchClient) (url : string) (options : FetchOptions)
    (reply : Reply) : list Effect :=
  begun client url options ++ handled client options reply ++ finished client options.
End Request.

Definition isLoader (e : Effect) : bool :=
  match e with LoaderStart _ | LoaderEnd => true | _ => false end.

Definition isSettlement (e : Effect) : bool :=
  match e with Resolved _ | Rejected => true | _ => false end.

Definition isReport (e : Effect) : bool :=
  match e with ToastAdded _ _ _ | ConsoleError _ _ => true | _ => false end.

(** Some options and a client for the examples. *)
Definition plain : FetchOptions :=
  {| data := Undefined; json := Undefined; headers := None; method := Undefined;
     loading := Undefined; handleGenericRequestErrors := Undefined |}.

Definition withJson : FetchOptions :=
  {| data := Str "ignored"; json := Obj 1;
     headers := Some [("Content-Type", "text/plain")]; method := Undefined;
     loading := Str "Saving"; handleGenericRequestErrors := Bool false |}.

Definition client0 : FetchClient := {| loader := Some 0; failureMessage := "Failed" |}.

Definition stringify0 (v : Value) : string := "{}".

Definition extend0 (a b : Headers) : Headers :=
  fold_left (fun h kv => assign (fst kv) (snd kv) h) b a.
End Fetch.

(** * Mounting components

    [mount] and [mountJsx] of [src/unnamed/part_001].  The elements are the
    ones [find] returned; what the functions do is the list of calls made to
    the component class, to [render] and to [console.error]. *)

Module Mount.

(** What [mountJsx] reads of a node. *)
Record Element := {
  node : Node;
  parentElement : option Node;
  textContent : option string;
}.

Inductive Effect (Data : Type) :=
| Mounted (element : Node)
| Rendered (data : Data) (parent : Node) (replaced : Node)
| ConsoleError (message : string).
Arguments Mounted {Data} element.
Arguments Rendered {Data} data parent replaced.
Arguments ConsoleError {Data} message.

Section Mounting.
Variable Data : Type.
(** [String.prototype.trim], [JSON.parse] ([None]: it throws), [{}],
    [merge] of [./extend], and whether [render] of [preact] returns for
    these arguments. *)
Variable trim : string -> string.
Variable parse : string -> option Data.
Variable emptyObject : Data.
Variable merge : Data -> Data -> Data.
Variable renders : Data -> Node -> Node -> bool.
(** Whether [new ComponentToMount(element, ...)] followed by [init()]
    returns. *)
Variable mounts : Node -> bool.

(** The loop of [mount]: the components mounted, and whether the loop ran
    to its end.  An exception of the constructor or of [init] is not
    caught: it ends the loop and leaves [mount]. *)
Fixpoint mount (elements : list Node) : list (Effect Data) * bool :=
  match elements with
  | [] => ([], true)
  | e :: rest =>
      if mounts e
      then (Mounted e :: fst (mount rest), snd (mount rest))
      else ([], false)
  end.

(** One round of the loop of [mountJsx], with its [try] and [catch]. *)
Definition mountOne (additionalProps : Data) (e : Element) : list (Effect Data) :=
  match parentElement e with
  | None => [ConsoleError "Can't mount on container without parent."]
  | Some parent =>
      let content := trim (match textContent e with Some t => t | None => "" end) in
      match (if String.eqb content "" then Some emptyObject else parse content) with
      | None => [ConsoleError "Could not mount component"]
      | Some data =>
          if renders (merge data additionalProps) parent (node e)
          then [Rendered (merge data additionalProps) parent (node e)]
          else [ConsoleError "Could not mount component"]
      end
  end.

(** [mountJsx], on the elements found. *)
Definition mountJsx (additionalProps : Data) (elements : list Element)
    : list (Effect Data) :=
  flat_map (mountOne additionalProps) elements.
End Mounting.

End Mount.

(** * Exceptions of the interaction class

    The embedding of [onInteractionStart] above takes
    [new SortableInteraction(...)] and [start()] as calls that return.  The
    class is not among the sources, and [onInteractionStart] hands it
    whatever the lookup of the dragged item gave, [null] included, outside
    any [try].  Here the two calls may throw, for the arguments and in the
    states the two predicates say; an exception leaves the handler where it
    is raised. *)

Module Throwing.
Section Throwing.
Context `{Interaction : SortableInteraction.Impl}.
Variable newThrows : Node -> option Node -> string -> Z -> Z -> bool.
Variable startThrows : SortableInteraction.t -> Dom -> bool.

Local Notation "x <- c ;; k" := (bind c (fun x => k))
  (at level 61, c at next level, right associativity).
Local Notation "c ;; k" := (bind c (fun _ => k))
  (at level 61, right associativity).

(** [new SortableInteraction(container, draggedItem, items, x, y)]; when the
    constructor throws no object comes to be. *)
Definition construct (c : Node) (draggedItem : option Node) (sel : string) (x y : Z) : M Ref :=
  if newThrows c draggedItem sel x y
  then throw "TypeError"
  else construct c draggedItem sel x y.

(** [this.interaction.start()] *)
Definition start (r : Ref) : M unit :=
  throws <- ask r startThrows ;;
  if throws : bool
  then throw "TypeError"
  else invoke r SortableInteraction.start (EStart r).

(** [private onInteractionStart (event : MouseEvent) : void] *)
Definition onInteractionStart (event : MouseEvent) : M unit :=
  i <- gets (fun w => interaction (this w)) ;;
  match i with
  | Some _ => ret tt
  | None =>
      match target event with
      | None => ret tt
      | Some eventTarget =>
          sel <- gets (fun w => cfg_items (config (this w))) ;;
          c <- gets (fun w => container (this w)) ;;
          d <- gets page ;;
          let draggedItem :=
            if matches d eventTarget sel then Some eventTarget
            else closest d eventTarget sel in
          r <- construct c draggedItem sel (screenX event) (screenY event) ;;
          assignInteraction (Some r) ;;
          r <- theInteraction ;;
          start r ;;
          on DocumentBody "mousemove" LMove ;;
          on DocumentBody "mouseup" LEnd ;;
          on Window "mouseout" LMouseOut ;;
          on Window "scroll" LScroll ;;
          emit "start" (JArray [js_of_node draggedItem]) ;;
          preventDefault event
      end
  end.
End Throwing.

(** A constructor that throws on a [null] dragged item, and one that never
    throws. *)
Definition newNeedsItem (c : Node) (draggedItem : option Node) (sel : string) (x y : Z) : bool :=
  match draggedItem with
  | None => true
  | Some _ => false
  end.

Definition newReturns (c : Node) (draggedItem : option Node) (sel : string) (x y : Z) : bool :=
  false.

(** Modelled from the spec: [start()] "captures the dragged item's current
    sibling position" and marks the item as being dragged; with [null] for
    the item, reading its sibling throws. *)
Definition startNeedsItem (o : SpecInteraction.state) (d : ListPage.doc) : bool :=
  match SpecInteraction.draggedItem o with
  | None => true
  | Some _ => false
  end.

Definition startReturns (o : SpecInteraction.state) (d : ListPage.doc) : bool := false.
End Throwing.

(** * The fetch client, with the exceptions of its own code

    [Fetch.request] leaves out the two places where the code of [request]
    itself throws: [JSON.stringify] (line 54, for instance on a cyclic
    value), after the loader was started and before [fetch] is called; and
    the handler of a parsed body (line 82), which reads [response.message]
    and so throws when the body is the JSON text [null].  [request] below
    has both.  The other collaborators ([extend], the loader, the toast
    manager, the console, [fetch], the assignment to [location.href]) are
    taken to return. *)

Module FetchThrowing.
Import Fetch.

(** How the network answers.  A parsed body is [None] for the JSON text
    [null]; any other JSON value is [Some]: reading a field that a value
    lacks gives [undefined] and does not throw. *)
Inductive Reply :=
| RequestFailed (error : Value)
| BodyNotJson (error : Value)
| BodyParsed (body : option AjaxResponse).

Section Request.
(** [JSON.stringify]; [None]: it throws. *)
Variable stringify : Value -> option string.
Variable extend : Headers -> Headers -> Headers.

(** The text [JSON.stringify] returned. *)
Definition text (v : Value) : string :=
  match stringify v with
  | Some t => t
  | None => ""
  end.

(** Whether line 54 is reached and throws. *)
Definition stringifyThrows (options : FetchOptions) : bool :=
  truthy (json options) && match stringify (json options) with None => true | Some _ => false end.

(** The handlers of the promise chain.  For the body [null] the handler
    throws at its first statement: no toast, no redirect, and neither
    [resolve] nor [reject] is called. *)
Definition handled (client : FetchClient) (options : FetchOptions) (reply : Reply)
    : list Effect :=
  match reply with
  | RequestFailed error => Fetch.handled client options (Failed error)
  | BodyNotJson error => Fetch.handled client options (NotJson error)
  | BodyParsed (Some response) => Fetch.handled client options (Answered response)
  | BodyParsed None => []
  end.

(** [public request (url, options)], with the reply of the network: what
    it does, and whether [request] itself threw.  When it throws, nothing
    after line 54 runs: [fetch] is not called and no [finally] is
    registered. *)
Definition request (client : FetchClient) (url : string) (options : FetchOptions)
    (reply : Reply) : list Effect * bool :=
  if stringifyThrows options
  then ((if showsLoader client options then [LoaderStart (loading options)] else []), true)
  else (begun text extend client url options ++
        handled client options reply ++
        finished client options, false).
End Request.

(** [JSON.stringify] on the values of the examples: object 7 is cyclic. *)
Definition stringify0 (v : Value) : option string :=
  match v with
  | Obj 7 => None
  | _ => Some "{}"
  end.

Definition cyclic : FetchOptions :=
  {| data := Undefined; json := Obj 7; headers := None; method := Undefined;
     loading := Str "Saving"; handleGenericRequestErrors := Undefined |}.
End FetchThrowing.

(** * A continuation that outlives its gesture *)

Module Stale.
Import Scenario.

(** A is picked up and released; before the drop's promise fulfils,
    [destroy()] and [init()] are called, so that an abort's promise of the
    same interaction waits as well.  The drop's promise fulfils and ends the
    gesture.  A is picked up again: a second gesture is under way, and the
    abort's promise of the first still waits. *)
Definition secondGesture : World :=
  run (boot 10 cfg page0)
    [ Init;
      Dispatch (Elem 10) "mousedown" (at_ A 5);
      Dispatch DocumentBody "mouseup" (at_ A 5);
      Destroy;
      Init;
      Fulfil 0;
      Dispatch (Elem 10) "mousedown" (at_ A 5) ].

(** In the second gesture A is dragged over C. *)
Definition secondGestureOverC : World :=
  run secondGesture [Dispatch DocumentBody "mousemove" (at_ A 25)].
End Stale.

(** ** Properties of the controller *)

Section Properties.
Context `{Interaction : SortableInteraction.Impl}.
Implicit Types (w : World) (event : MouseEvent) (r : Ref).

(** Unfolds the monad and the collaborator calls that only log. *)
Ltac run_monad :=
  cbv beta iota delta [bind ret gets modify log throw on off emit preventDefault then_
                  assignInteraction assignDelegateHandler theInteraction construct delegate
                  ask].

(** Computes the fields of a world built by the setters. *)
Ltac world_simpl :=
  cbv beta iota delta [logged with_this with_page with_objects with_registry
                       with_reactions with_nextToken
                       this page objects registry reactions nextToken trace fst snd];
  repeat rewrite <- app_assoc; cbn [app].

Lemma emissions_app (a b : list Effect) :
  emissions (a ++ b) = emissions a ++ emissions b.
Proof.
  induction a as [|e a IH]; simpl; [reflexivity|].
  destruct e; simpl; rewrite ?IH; reflexivity.
Qed.

Lemma invoke_found w r o m e :
  nth_error (objects w) r = Some o ->
  invoke r m e w =
  Returned tt (logged e (with_page (snd (m o (page w)))
                 (with_objects (update r (fst (m o (page w))) (objects w)) w))).
Proof.
  intros Ho. unfold invoke. rewrite Ho. destruct (m o (page w)); reflexivity.
Qed.

(** *** Re-entrant pickup *)

Lemma pickup_while_dragging_is_ignored_core w event r :
  interaction (this w) = Some r ->
  onInteractionStart event w = Returned tt w.
Proof.
  intros Hi. unfold onInteractionStart. run_monad. rewrite Hi. reflexivity.
Qed.

(** C1.  A pointer-down that arrives while the controller holds an
    interaction returns at once and leaves the world as it was: no
    [SortableInteraction] is constructed, no listener attached, nothing
    emitted, the interaction kept.  This holds for the handler and for
    the delegated listener that calls it. *)
Theorem pickup_while_dragging_is_ignored w event r :
  interaction (this w) = Some r ->
  onInteractionStart event w = Returned tt w /\
  (forall token root selector,
      handleEvent (LDelegate token root selector) event w = Returned tt w) /\
  objects (world_of (onInteractionStart event w)) = objects w /\
  registry (world_of (onInteractionStart event w)) = registry w /\
  trace (world_of (onInteractionStart event w)) = trace w /\
  interaction (this (world_of (onInteractionStart event w))) = Some r.
Proof.
  intros Hi.
  assert (E : onInteractionStart event w = Returned tt w)
    by (eapply pickup_while_dragging_is_ignored_core; exact Hi).
  split; [exact E|]. split.
  - intros token root selector. unfold handleEvent. run_monad.
    match goal with
    | |- context [delegated ?d ?n ?s ?t] => destruct (delegated d n s t)
    end; [exact E | reflexivity].
  - rewrite E. simpl. auto.
Qed.

(** *** Handlers called while idle *)

Lemma idle_handlers_do_nothing_core w (oevent : option MouseEvent) :
  Idle w -> onDragEnd oevent w = Returned tt w.
Proof.
  unfold Idle. intros Hi. unfold onDragEnd. run_monad. rewrite Hi. reflexivity.
Qed.

(** C7.  Called while the controller is idle, [onDragMove], [onDragEnd]
    (with or without an event) and [onScroll] return without an exception
    and leave the world, its trace of effects included, untouched. *)
Theorem idle_handlers_do_nothing w event (oevent : option MouseEvent) :
  Idle w ->
  onDragMove event w = Returned tt w /\
  onDragEnd oevent w = Returned tt w /\
  onScroll w = Returned tt w.
Proof.
  unfold Idle. intros Hi. repeat split.
  - unfold onDragMove. run_monad. rewrite Hi. reflexivity.
  - unfold onDragEnd. run_monad. rewrite Hi. reflexivity.
  - unfold onScroll. run_monad. rewrite Hi. reflexivity.
Qed.

(** *** What each handler does, as an equation *)

Lemma update_last {A} (l : list A) (x y : A) :
  update (List.length l) x (l ++ [y]) = l ++ [x].
Proof. induction l as [|a l IH]; simpl; [reflexivity | now rewrite IH]. Qed.

Lemma nth_error_last {A} (l : list A) (y : A) :
  nth_error (l ++ [y]) (List.length l) = Some y.
Proof. induction l as [|a l IH]; simpl; [reflexivity | exact IH]. Qed.

Lemma onInteractionStart_idle w event n :
  Idle w ->
  target event = Some n ->
  let r := List.length (objects w) in
  let c := container (this w) in
  let sel := cfg_items (config (this w)) in
  let o0 := SortableInteraction.new c (pickedItem w n) sel (screenX event) (screenY event) in
  onInteractionStart event w =
  Returned tt
    {| this := set_interaction (Some r) (this w);
       page := snd (SortableInteraction.start o0 (page w));
       objects := objects w ++ [fst (SortableInteraction.start o0 (page w))];
       registry := withWide (registry w);
       reactions := reactions w;
       nextToken := nextToken w;
       trace := trace w ++
         [ ENew r c (pickedItem w n) sel (screenX event) (screenY event);
           ESetInteraction (Some r);
           EStart r;
           EOn DocumentBody "mousemove" LMove;
           EOn DocumentBody "mouseup" LEnd;
           EOn Window "mouseout" LMouseOut;
           EOn Window "scroll" LScroll;
           EEmit "start" (JArray [js_of_node (pickedItem w n)]);
           EPreventDefault event ] |}.
Proof.
  unfold Idle. intros Hi Ht. cbv zeta.
  unfold onInteractionStart. run_monad. rewrite Hi, Ht.
  cbn [this page objects registry reactions nextToken trace interaction
       with_this with_objects logged set_interaction].
  erewrite invoke_found by (cbn [objects logged with_this with_objects]; apply nth_error_last).
  cbn [objects logged with_this with_objects page]. rewrite update_last.
  unfold withWide, pickedItem. world_simpl. reflexivity.
Qed.

Lemma onDragEnd_dragging w r o (event : option MouseEvent) :
  Dragging w r o ->
  onDragEnd event w =
  Returned tt
    {| this := this w;
       page := snd (finalizer event o (page w));
       objects := update r (fst (finalizer event o (page w))) (objects w);
       registry := withoutWide (registry w);
       reactions := reactions w ++ [finalizerPromise event r];
       nextToken := nextToken w;
       trace := trace w ++
         [ EOff DocumentBody "mousemove" LMove;
           EOff DocumentBody "mouseup" LEnd;
           EOff Window "mouseout" LMouseOut;
           EOff Window "scroll" LScroll;
           finalizerCall event r;
           EThen (finalizerPromise event r) ] |}.
Proof.
  intros [Hi Ho]. unfold onDragEnd. run_monad. rewrite Hi.
  destruct event as [e|]; cbv beta iota;
    cbn [this interaction with_registry logged]; rewrite Hi;
    cbn [finalizer finalizerCall finalizerPromise];
    (erewrite invoke_found by (cbn [objects logged with_registry]; exact Ho));
    unfold withoutWide; world_simpl; reflexivity.
Qed.

Lemma onFinalized_dragging w r o (result : option SortableResult) :
  Dragging w r o ->
  onFinalized result w =
  Returned tt
    {| this := set_interaction None (this w);
       page := page w;
       objects := objects w;
       registry := registry w;
       reactions := reactions w;
       nextToken := nextToken w;
       trace := trace w ++
         ESetInteraction None ::
         notifications (SortableInteraction.orderHasChanged o (page w))
           (find (page w) (cfg_items (config (this w))) (container (this w))) result |}.
Proof.
  intros [Hi Ho]. unfold onFinalized. run_monad.
  repeat (first [rewrite Hi | rewrite Ho]; cbv beta iota).
  unfold notifications.
  destruct (SortableInteraction.orderHasChanged o (page w));
    world_simpl; reflexivity.
Qed.

Lemma onFinalized_idle w (result : option SortableResult) :
  Idle w -> onFinalized result w = Returned tt w.
Proof.
  unfold Idle. intros Hi. unfold onFinalized. run_monad. rewrite Hi. reflexivity.
Qed.

Lemma nth_error_update_same {A} (l : list A) (i : nat) (x y : A) :
  nth_error l i = Some y -> nth_error (update i x l) i = Some x.
Proof.
  revert i. induction l as [|a l IH]; intros [|i] Hn; simpl in *;
    try discriminate; [reflexivity | now apply IH].
Qed.

Lemma settle_found w p o :
  nth_error (objects w) (p_ref p) = Some o ->
  settle p w =
  Returned (snd (settled (p_kind p) o (page w)))
    (logged (EFulfilled p)
       (with_page (snd (fst (settled (p_kind p) o (page w))))
          (with_objects
             (update (p_ref p) (fst (fst (settled (p_kind p) o (page w)))) (objects w)) w))).
Proof.
  intros Ho. unfold settle, settled. rewrite Ho.
  destruct (p_kind p).
  - destruct (SortableInteraction.dropSettled o (page w)) as [[o' d'] res]; reflexivity.
  - destruct (SortableInteraction.abortSettled o (page w)) as [o' d']; reflexivity.
Qed.

(** The promise of the interaction the controller holds fulfils. *)
Lemma fulfil_held w r o k p :
  Dragging w r o ->
  nth_error (reactions w) k = Some p ->
  p_ref p = r ->
  let s := settled (p_kind p) o (page w) in
  fulfil k w =
  Returned tt
    {| this := set_interaction None (this w);
       page := snd (fst s);
       objects := update r (fst (fst s)) (objects w);
       registry := registry w;
       reactions := remove_nth k (reactions w);
       nextToken := nextToken w;
       trace := trace w ++
         EFulfilled p :: ESetInteraction None ::
         notifications (SortableInteraction.orderHasChanged (fst (fst s)) (snd (fst s)))
           (find (snd (fst s)) (cfg_items (config (this w))) (container (this w)))
           (snd s) |}.
Proof.
  intros [Hi Ho] Hk Hr. cbv zeta. subst r.
  unfold fulfil. run_monad. rewrite Hk. cbv beta iota.
  erewrite settle_found by (cbn [objects with_reactions]; exact Ho).
  erewrite onFinalized_dragging.
  2:{ split; cbn [this objects logged with_page with_objects with_reactions interaction];
      [exact Hi | eapply nth_error_update_same; exact Ho]. }
  world_simpl. cbn [page with_reactions]. reflexivity.
Qed.

(** A promise fulfils while the controller is idle: nothing is emitted. *)
Lemma fulfil_idle w k :
  Idle w ->
  emissions (trace (world_of (fulfil k w))) = emissions (trace w) /\
  this (world_of (fulfil k w)) = this w /\
  registry (world_of (fulfil k w)) = registry w.
Proof.
  intros Hi. unfold fulfil. run_monad.
  destruct (nth_error (reactions w) k) as [p|]; [|simpl; auto].
  cbv beta iota. unfold settle. cbn [objects with_reactions].
  destruct (nth_error (objects w) (p_ref p)) as [o|].
  2:{ simpl. rewrite emissions_app, app_nil_r. auto. }
  destruct (p_kind p).
  - destruct (SortableInteraction.dropSettled _ _) as [[o' d'] res].
    rewrite onFinalized_idle by exact Hi.
    simpl. rewrite emissions_app, app_nil_r. auto.
  - destruct (SortableInteraction.abortSettled _ _) as [o' d'].
    rewrite onFinalized_idle by exact Hi.
    simpl. rewrite emissions_app, app_nil_r. auto.
Qed.

Lemma destroy_after w w1 :
  onDragEnd None w = Returned tt w1 ->
  destroy w = Returned tt (undelegated w1).
Proof.
  intros E. unfold destroy, undelegated, bind. rewrite E. run_monad.
  destruct (delegateHandler (this w1)) as [l|]; [|reflexivity].
  world_simpl. reflexivity.
Qed.

Lemma init_after w w1 :
  match delegateHandler (this w) with
  | Some _ => destroy w = Returned tt w1
  | None => w1 = w
  end ->
  init w = Returned tt (delegating w1).
Proof.
  intros E. unfold init, delegating, freshDelegate. run_monad.
  destruct (delegateHandler (this w)) as [l|].
  - rewrite E. world_simpl. reflexivity.
  - subst w1. world_simpl. reflexivity.
Qed.

(** *** Accepted pickup *)

(** C3, as the code has it.  An accepted pickup (the controller idle, the
    event's target not null) emits exactly one event, [start], whose
    payload is a one-element array holding the dragged item: the target
    when it matches the items selector, else what [closest] finds for it.
    The last effect of the handler is [preventDefault] on that event. *)
Theorem accepted_pickup_emits_start w event n :
  Idle w ->
  target event = Some n ->
  let w1 := world_of (onInteractionStart event w) in
  returns (onInteractionStart event w) = true /\
  emissions (trace w1) =
    emissions (trace w) ++ [("start", JArray [js_of_node (pickedItem w n)])] /\
  (exists before,
      trace w1 = before ++ [ EEmit "start" (JArray [js_of_node (pickedItem w n)]);
                             EPreventDefault event ]) /\
  pickedItem w n =
    (if matches (page w) n (cfg_items (config (this w)))
     then Some n
     else closest (page w) n (cfg_items (config (this w)))).
Proof.
  intros Hi Ht. cbv zeta.
  rewrite (onInteractionStart_idle w event n Hi Ht).
  cbn [world_of returns trace]. repeat split.
  - rewrite emissions_app. reflexivity.
  - eexists (trace w ++ [_; _; _; _; _; _; _]).
    rewrite <- app_assoc. reflexivity.
Qed.

(** With a constructor and a [start()] that return, a pointer-down whose
    target neither matches the items selector nor has a matching ancestor is
    not stopped: with the controller idle,
    [onInteractionStart] constructs the interaction with [null] as the
    dragged item, starts it, attaches the four wide listeners, and emits
    [start] carrying that [null] (in the one-element array of every
    [start]). *)
Theorem pickup_without_item_is_not_guarded w event n :
  Idle w ->
  target event = Some n ->
  matches (page w) n (cfg_items (config (this w))) = false ->
  closest (page w) n (cfg_items (config (this w))) = None ->
  let r := List.length (objects w) in
  let c := container (this w) in
  let sel := cfg_items (config (this w)) in
  let w1 := world_of (onInteractionStart event w) in
  returns (onInteractionStart event w) = true /\
  interaction (this w1) = Some r /\
  nth_error (objects w1) r =
    Some (fst (SortableInteraction.start
                 (SortableInteraction.new c None sel (screenX event) (screenY event))
                 (page w))) /\
  registry w1 = withWide (registry w) /\
  trace w1 = trace w ++
    [ ENew r c None sel (screenX event) (screenY event);
      ESetInteraction (Some r);
      EStart r;
      EOn DocumentBody "mousemove" LMove;
      EOn DocumentBody "mouseup" LEnd;
      EOn Window "mouseout" LMouseOut;
      EOn Window "scroll" LScroll;
      EEmit "start" (JArray [JNull]);
      EPreventDefault event ].
Proof.
  intros Hi Ht Hm Hc. cbv zeta.
  rewrite (onInteractionStart_idle w event n Hi Ht).
  assert (Hp : pickedItem w n = None) by (unfold pickedItem; rewrite Hm; exact Hc).
  rewrite Hp. cbn [world_of returns this objects registry trace interaction
                   set_interaction js_of_node].
  repeat split. apply nth_error_last.
Qed.

(** *** The end of a gesture *)

Lemma detach_out (r x : Registration) (reg : list Registration) :
  Registration_eqb r x = true -> ~ In x (detach r reg).
Proof.
  intros E Hin. unfold detach in Hin. apply filter_In in Hin.
  destruct Hin as [_ Hn]. rewrite E in Hn. discriminate.
Qed.

Lemma detach_incl (r x : Registration) (reg : list Registration) :
  In x (detach r reg) -> In x reg.
Proof. unfold detach. intros Hin. apply filter_In in Hin. tauto. Qed.

Lemma withoutWide_clean (reg : list Registration) (x : Registration) :
  In x wideListeners -> ~ In x (withoutWide reg).
Proof.
  unfold wideListeners, withoutWide. intros Hx Hin.
  repeat (destruct Hx as [Hx|Hx]; [subst x|]); try contradiction.
  - do 3 apply detach_incl in Hin. revert Hin. now apply detach_out.
  - do 2 apply detach_incl in Hin. revert Hin. now apply detach_out.
  - do 1 apply detach_incl in Hin. revert Hin. now apply detach_out.
  - revert Hin. now apply detach_out.
Qed.

Lemma withoutWide_incl (reg : list Registration) (x : Registration) :
  In x (withoutWide reg) -> In x reg.
Proof. unfold withoutWide. intros Hin. now do 4 apply detach_incl in Hin. Qed.

(** The state in which [onDragEnd] leaves a gesture: the controller still
    holds the interaction, and the promise waits last. *)
Lemma ended_still_held w r o (event : option MouseEvent) w1 :
  Dragging w r o ->
  onDragEnd event w = Returned tt w1 ->
  Dragging w1 r (fst (finalizer event o (page w))) /\
  page w1 = snd (finalizer event o (page w)) /\
  this w1 = this w /\
  nth_error (reactions w1) (List.length (reactions w)) = Some (finalizerPromise event r).
Proof.
  intros HD E. rewrite (onDragEnd_dragging w r o event HD) in E.
  injection E as <-. destruct HD as [Hi Ho].
  cbn [this page objects reactions]. repeat split.
  - exact Hi.
  - eapply nth_error_update_same; exact Ho.
  - apply nth_error_last.
Qed.

(** The trace of a gesture's end: of [onDragEnd], then of the
    continuation when the promise fulfils next. *)
Lemma finalize_traces w r o (event : option MouseEvent) :
  Dragging w r o ->
  let p := finalizerPromise event r in
  let s := finalState event o (page w) in
  let w1 := world_of (onDragEnd event w) in
  let w2 := world_of (fulfil (List.length (reactions w)) w1) in
  trace w1 = trace w ++
    [ EOff DocumentBody "mousemove" LMove;
      EOff DocumentBody "mouseup" LEnd;
      EOff Window "mouseout" LMouseOut;
      EOff Window "scroll" LScroll;
      finalizerCall event r;
      EThen p ] /\
  trace w2 = trace w1 ++
    EFulfilled p :: ESetInteraction None ::
    notifications (SortableInteraction.orderHasChanged (fst (fst s)) (snd (fst s)))
      (find (snd (fst s)) (cfg_items (config (this w))) (container (this w)))
      (snd s) /\
  interaction (this w2) = None.
Proof.
  intros HD. cbv zeta.
  destruct (ended_still_held w r o event _ HD (onDragEnd_dragging w r o event HD))
    as (HD1 & Hp1 & Ht1 & Hk1).
  rewrite (onDragEnd_dragging w r o event HD) in *.
  cbn [world_of] in *.
  rewrite (fulfil_held _ r _ _ _ HD1 Hk1 eq_refl).
  cbn [world_of this page registry reactions trace interaction set_interaction] in *.
  repeat split.
Qed.

(** The end of a gesture whose own promise fulfils next is sequential.
    [onDragEnd] detaches the
    four wide listeners, then calls the finalizer ([drop] or [abort]) and
    registers its continuation; when it returns the listeners are gone
    while the promise still waits and the interaction is still held, so
    that a pointer-down is ignored.  When the promise fulfils, the
    continuation reads the items and [orderHasChanged()] from the
    document and the object as the finalizer left them, clears the
    interaction, and only then emits. *)
Theorem gesture_end_is_sequential w r o (event : option MouseEvent) :
  Dragging w r o ->
  let p := finalizerPromise event r in
  let k := List.length (reactions w) in
  let s := finalState event o (page w) in
  let w1 := world_of (onDragEnd event w) in
  let w2 := world_of (fulfil k w1) in
  trace w1 = trace w ++
    [ EOff DocumentBody "mousemove" LMove;
      EOff DocumentBody "mouseup" LEnd;
      EOff Window "mouseout" LMouseOut;
      EOff Window "scroll" LScroll;
      finalizerCall event r;
      EThen p ] /\
  (forall x, In x wideListeners -> ~ In x (registry w1)) /\
  nth_error (reactions w1) k = Some p /\
  interaction (this w1) = Some r /\
  (forall e, onInteractionStart e w1 = Returned tt w1) /\
  trace w2 = trace w1 ++
    EFulfilled p :: ESetInteraction None ::
    notifications (SortableInteraction.orderHasChanged (fst (fst s)) (snd (fst s)))
      (find (snd (fst s)) (cfg_items (config (this w))) (container (this w)))
      (snd s) /\
  interaction (this w2) = None.
Proof.
  intros HD. cbv zeta.
  destruct (finalize_traces w r o event HD) as (T1 & T2 & I2). cbv zeta in T1, T2, I2.
  split; [exact T1|].
  rewrite (onDragEnd_dragging w r o event HD) in *. cbn [world_of] in *.
  cbn [this registry reactions] in *.
  repeat split.
  - apply withoutWide_clean.
  - apply nth_error_last.
  - apply (proj1 HD).
  - intros e. eapply pickup_while_dragging_is_ignored_core. apply (proj1 HD).
  - exact T2.
  - exact I2.
Qed.

(** A gesture that ends by a release, whose promise fulfils next and whose
    interaction reports a changed order emits, after [end], one [changed] event.  Its [items]
    are what [find] gives for the items selector in the container on the
    document as the drop left it, and its [result] is the [{item,
    before}] the drop's promise fulfilled with. *)
Theorem changed_carries_fresh_items_and_result w r o e :
  Dragging w r o ->
  let dropped := SortableInteraction.drop (screenX e) (screenY e) o (page w) in
  let done := SortableInteraction.dropSettled (fst dropped) (snd dropped) in
  let w1 := world_of (onDragEnd (Some e) w) in
  let w2 := world_of (fulfil (List.length (reactions w)) w1) in
  SortableInteraction.orderHasChanged (fst (fst done)) (snd (fst done)) = true ->
  emissions (trace w2) =
    emissions (trace w) ++
    [ ("end", JUndefined);
      ("changed",
       JObject
         [ ("items",
            JArray (map JElem (find (snd (fst done)) (cfg_items (config (this w)))
                                 (container (this w)))));
           ("result",
            JObject [ ("item", js_of_node (item (snd done)));
                      ("before", js_of_node (before (snd done))) ]) ]) ].
Proof.
  intros HD. cbv zeta. intros Hc.
  destruct (finalize_traces w r o (Some e) HD) as (T1 & T2 & _).
  cbv zeta in T1, T2. rewrite T2, T1.
  cbn [finalState finalizerPromise p_kind settled finalizer fst snd].
  rewrite Hc. rewrite !emissions_app. cbn [emissions notifications app].
  rewrite app_nil_r. reflexivity.
Qed.

Lemma same_element_eq (a b : option Node) : same_element a b = true <-> a = b.
Proof.
  destruct a as [x|], b as [y|]; simpl; split; intros E; try discriminate; auto.
  - apply Nat.eqb_eq in E. now subst.
  - injection E as ->. apply Nat.eqb_refl.
Qed.

Lemma onMouseOut_eq w event :
  onMouseOut event w =
  if same_element (relatedTarget event) (findOne (page w) "html")
  then onDragEnd None w
  else Returned tt w.
Proof.
  unfold onMouseOut. run_monad.
  destruct (same_element (relatedTarget event) (findOne (page w) "html")); reflexivity.
Qed.

Lemma undelegated_keeps w :
  interaction (this (undelegated w)) = interaction (this w) /\
  container (this (undelegated w)) = container (this w) /\
  config (this (undelegated w)) = config (this w) /\
  page (undelegated w) = page w /\
  objects (undelegated w) = objects w /\
  reactions (undelegated w) = reactions w /\
  emissions (trace (undelegated w)) = emissions (trace w) /\
  delegateHandler (this (undelegated w)) = None.
Proof.
  unfold undelegated. destruct (delegateHandler (this w)) as [l|] eqn:E.
  - cbn. rewrite emissions_app, app_nil_r. repeat split.
  - rewrite E. repeat split.
Qed.

(** Each way of ending a gesture calls [onDragEnd], and [destroy] then
    removes the delegated listener. *)
Lemma endGesture_eq w r o (x : Ending) :
  Dragging w r o ->
  (forall e, x = LeftWindow e ->
             same_element (relatedTarget e) (findOne (page w) "html") = true) ->
  exists w1,
    onDragEnd (endEvent x) w = Returned tt w1 /\
    endGesture x w = Returned tt (match x with Destroyed => undelegated w1 | _ => w1 end).
Proof.
  intros HD Hx. eexists. split; [apply (onDragEnd_dragging w r o _ HD)|].
  destruct x as [e|e|]; cbn [endGesture endEvent].
  - apply (onDragEnd_dragging w r o _ HD).
  - rewrite onMouseOut_eq, (Hx e eq_refl). apply (onDragEnd_dragging w r o _ HD).
  - apply destroy_after. apply (onDragEnd_dragging w r o _ HD).
Qed.

(** The worlds a gesture's end goes through, whichever way it ends:
    [w1] when the handler returns, [w2] when the promise it registered
    has fulfilled next. *)
Lemma ending_worlds w r o (x : Ending) :
  Dragging w r o ->
  (forall e, x = LeftWindow e ->
             same_element (relatedTarget e) (findOne (page w) "html") = true) ->
  let s := finalState (endEvent x) o (page w) in
  exists w1 w2,
    endGesture x w = Returned tt w1 /\
    emissions (trace w1) = emissions (trace w) /\
    fulfil (List.length (reactions w)) w1 = Returned tt w2 /\
    trace w2 = trace w1 ++
      EFulfilled (finalizerPromise (endEvent x) r) :: ESetInteraction None ::
      notifications (SortableInteraction.orderHasChanged (fst (fst s)) (snd (fst s)))
        (find (snd (fst s)) (cfg_items (config (this w))) (container (this w)))
        (snd s) /\
    interaction (this w2) = None.
Proof.
  intros HD Hx. cbv zeta.
  destruct (endGesture_eq w r o x HD Hx) as (w1 & E1 & E).
  destruct (ended_still_held w r o _ w1 HD E1) as (HD1 & Hp1 & Ht1 & Hk1).
  assert (Em1 : emissions (trace w1) = emissions (trace w)).
  { rewrite (onDragEnd_dragging w r o _ HD) in E1. injection E1 as <-.
    cbn [trace]. rewrite emissions_app. destruct (endEvent x); cbn; apply app_nil_r. }
  set (w1' := match x with Destroyed => undelegated w1 | _ => w1 end) in *.
  assert (K : Dragging w1' r (fst (finalizer (endEvent x) o (page w))) /\
              page w1' = page w1 /\ reactions w1' = reactions w1 /\
              container (this w1') = container (this w) /\
              config (this w1') = config (this w) /\
              emissions (trace w1') = emissions (trace w)).
  { destruct (undelegated_keeps w1) as (U1 & U2 & U3 & U4 & U5 & U6 & U7 & _).
    destruct HD1 as [Hi1 Ho1].
    subst w1'. destruct x; unfold Dragging; rewrite ?U1, ?U2, ?U3, ?U4, ?U5, ?U6, ?U7, ?Ht1;
      repeat split; try assumption; apply (proj1 HD). }
  destruct K as (HD' & Kp & Kr & Kc & Kg & Ke).
  rewrite <- Kr in Hk1.
  eexists w1', _. split; [exact E|]. split; [exact Ke|].
  split; [apply (fulfil_held w1' r _ _ _ HD' Hk1 eq_refl)|].
  cbn [trace this interaction set_interaction].
  rewrite Kp, Hp1, Kc, Kg. split; reflexivity.
Qed.

(** C2.  However a gesture ends (release, pointer leaving the window
    towards the root element, [destroy]), nothing is emitted before the
    finalizer's promise fulfils; its continuation then emits [end], once,
    and after it [changed], once, exactly when [orderHasChanged()] answers
    true.  The controller is idle afterwards, and neither a further promise
    of the gesture nor a further call of [onDragEnd] emits anything. *)
Theorem end_fires_once_per_gesture w r o (x : Ending) :
  Dragging w r o ->
  (forall e, x = LeftWindow e ->
             same_element (relatedTarget e) (findOne (page w) "html") = true) ->
  let s := finalState (endEvent x) o (page w) in
  let w1 := world_of (endGesture x w) in
  let w2 := world_of (fulfil (List.length (reactions w)) w1) in
  returns (endGesture x w) = true /\
  emissions (trace w1) = emissions (trace w) /\
  returns (fulfil (List.length (reactions w)) w1) = true /\
  emissions (trace w2) =
    emissions (trace w) ++
    ("end", JUndefined) ::
    (if SortableInteraction.orderHasChanged (fst (fst s)) (snd (fst s))
     then [("changed",
            changedData (find (snd (fst s)) (cfg_items (config (this w)))
                           (container (this w))) (snd s))]
     else []) /\
  Idle w2 /\
  (forall j, emissions (trace (world_of (fulfil j w2))) = emissions (trace w2)) /\
  (forall oe, onDragEnd oe w2 = Returned tt w2).
Proof.
  intros HD Hx. cbv zeta.
  destruct (ending_worlds w r o x HD Hx) as (w1 & w2 & E1 & Em1 & E2 & T2 & I2).
  cbv zeta in T2. rewrite E1. cbn [world_of returns]. rewrite E2. cbn [world_of returns].
  split; [reflexivity|]. split; [exact Em1|]. split; [reflexivity|].
  split.
  { rewrite T2, emissions_app, Em1. cbn [emissions notifications].
    destruct (SortableInteraction.orderHasChanged _ _); reflexivity. }
  split; [exact I2|]. split.
  - intros j. apply fulfil_idle. exact I2.
  - intros oe. apply idle_handlers_do_nothing_core. exact I2.
Qed.

(** *** Pointer leaving the window *)

(** C6.  During a drag, on a page whose root element is [h], [onMouseOut]
    finalizes the gesture exactly when the event's [relatedTarget] is [h]:
    it is then [onDragEnd()] without an event, which calls [abort], never
    [drop], and an abort after which the interaction reports no change of
    order leads to [end] alone.  With any other [relatedTarget] the
    handler leaves the world untouched. *)
Theorem mouseout_aborts_only_towards_html w r o event h :
  Dragging w r o ->
  findOne (page w) "html" = Some h ->
  let p := {| p_ref := r; p_kind := ByAbort |} in
  let s := finalState None o (page w) in
  let w1 := world_of (onMouseOut event w) in
  let w2 := world_of (fulfil (List.length (reactions w)) w1) in
  (relatedTarget event = Some h <-> reactions w1 = reactions w ++ [p]) /\
  (relatedTarget event = Some h ->
     onMouseOut event w = onDragEnd None w /\
     trace w1 = trace w ++
       [ EOff DocumentBody "mousemove" LMove;
         EOff DocumentBody "mouseup" LEnd;
         EOff Window "mouseout" LMouseOut;
         EOff Window "scroll" LScroll;
         EAbort r;
         EThen p ] /\
     (SortableInteraction.orderHasChanged (fst (fst s)) (snd (fst s)) = false ->
      emissions (trace w2) = emissions (trace w) ++ [("end", JUndefined)])) /\
  (relatedTarget event <> Some h -> onMouseOut event w = Returned tt w).
Proof.
  intros HD Hh. cbv zeta.
  assert (Hyes : relatedTarget event = Some h -> onMouseOut event w = onDragEnd None w).
  { intros E. rewrite onMouseOut_eq, Hh.
    rewrite (proj2 (same_element_eq _ _) E). reflexivity. }
  assert (Hno : relatedTarget event <> Some h -> onMouseOut event w = Returned tt w).
  { intros N. rewrite onMouseOut_eq, Hh.
    destruct (same_element (relatedTarget event) (Some h)) eqn:E; [|reflexivity].
    apply same_element_eq in E. contradiction. }
  split; [split|split].
  - intros E. rewrite (Hyes E), (onDragEnd_dragging w r o None HD). reflexivity.
  - intros E.
    destruct (same_element (relatedTarget event) (Some h)) eqn:Eh.
    + now apply same_element_eq.
    + assert (N : relatedTarget event <> Some h).
      { intros E'. apply same_element_eq in E'. congruence. }
      rewrite (Hno N) in E. cbn [world_of] in E.
      apply (f_equal (@List.length _)) in E. rewrite length_app in E.
      simpl in E. lia.
  - intros E. split; [exact (Hyes E)|].
    rewrite (Hyes E).
    destruct (finalize_traces w r o None HD) as (T1 & T2 & _). cbv zeta in T1, T2.
    split; [exact T1|].
    intros Hc. rewrite T2, T1. rewrite Hc.
    rewrite !emissions_app. cbn [emissions notifications finalizerCall app].
    rewrite app_nil_r. reflexivity.
  - exact Hno.
Qed.

(** *** destroy *)

Lemma Registration_eqb_eq (x y : Registration) : Registration_eqb x y = true <-> x = y.
Proof.
  destruct x as [[t ty] l], y as [[t' ty'] l']. unfold Registration_eqb.
  rewrite !andb_true_iff, String.eqb_eq.
  assert (Ht : Target_eqb t t' = true <-> t = t').
  { destruct t, t'; simpl; try rewrite Nat.eqb_eq; split; intros E;
      try discriminate; try congruence. }
  assert (Hl : Listener_eqb l l' = true <-> l = l').
  { destruct l, l'; simpl; try rewrite !andb_true_iff, !Nat.eqb_eq, String.eqb_eq;
      split; intros E; try discriminate; try congruence.
    - destruct E as [[-> ->] ->]. reflexivity.
    - injection E as -> -> ->. auto. }
  rewrite Ht, Hl. split; [intros [[-> ->] ->]; reflexivity | intros E; inversion E; auto].
Qed.

(** C8.  [destroy()] during a drag takes the abort path of [onDragEnd]
    and then removes the delegated listener and clears its token: when it
    returns, the four wide listeners and the delegated listener are
    detached, nothing has been emitted yet, and the continuation of the
    abort emits [end] once (and [changed] only if the interaction reports
    a changed order), after which no further promise emits anything.
    While idle, [destroy()] only removes the delegated listener and clears
    its token, and does nothing at all when there is none. *)
Theorem destroy_aborts_and_undelegates w :
  (forall r o,
      Dragging w r o ->
      let p := {| p_ref := r; p_kind := ByAbort |} in
      let s := finalState None o (page w) in
      let c := container (this w) in
      let w1 := world_of (destroy w) in
      let w2 := world_of (fulfil (List.length (reactions w)) w1) in
      returns (destroy w) = true /\
      trace w1 = trace w ++
        [ EOff DocumentBody "mousemove" LMove;
          EOff DocumentBody "mouseup" LEnd;
          EOff Window "mouseout" LMouseOut;
          EOff Window "scroll" LScroll;
          EAbort r;
          EThen p ] ++
        match delegateHandler (this w) with
        | Some l => [EOff (Elem c) "mousedown" l; ESetDelegateHandler None]
        | None => []
        end /\
      (forall x, In x wideListeners -> ~ In x (registry w1)) /\
      (forall l, delegateHandler (this w) = Some l ->
                 ~ In (Elem c, "mousedown", l) (registry w1)) /\
      delegateHandler (this w1) = None /\
      emissions (trace w2) =
        emissions (trace w) ++
        ("end", JUndefined) ::
        (if SortableInteraction.orderHasChanged (fst (fst s)) (snd (fst s))
         then [("changed",
                changedData (find (snd (fst s)) (cfg_items (config (this w))) c) None)]
         else []) /\
      (forall j, emissions (trace (world_of (fulfil j w2))) = emissions (trace w2))) /\
  (Idle w ->
   destroy w = Returned tt (undelegated w) /\
   (delegateHandler (this w) = None -> destroy w = Returned tt w) /\
   (forall l, delegateHandler (this w) = Some l ->
      registry (undelegated w) =
        detach (Elem (container (this w)), "mousedown", l) (registry w) /\
      delegateHandler (this (undelegated w)) = None /\
      interaction (this (undelegated w)) = None /\
      page (undelegated w) = page w /\
      objects (undelegated w) = objects w /\
      reactions (undelegated w) = reactions w /\
      emissions (trace (undelegated w)) = emissions (trace w))).
Proof.
  split.
  - intros r o HD. cbv zeta.
    destruct (ending_worlds w r o Destroyed HD) as (w1 & w2 & E1 & Em1 & E2 & T2 & I2);
      [discriminate|]. cbv zeta in T2. cbn [endGesture endEvent] in E1, T2.
    pose proof (destroy_after w _ (onDragEnd_dragging w r o None HD)) as E.
    rewrite E1 in E. injection E as W.
    rewrite E1. cbn [world_of returns]. rewrite E2. cbn [world_of].
    assert (Em2 : emissions (trace w2) =
                  emissions (trace w) ++
                  ("end", JUndefined) ::
                  (if SortableInteraction.orderHasChanged
                        (fst (fst (finalState None o (page w))))
                        (snd (fst (finalState None o (page w))))
                   then [("changed",
                          changedData
                            (find (snd (fst (finalState None o (page w))))
                               (cfg_items (config (this w))) (container (this w))) None)]
                   else [])).
    { rewrite T2, emissions_app, Em1. cbn [emissions notifications].
      destruct (SortableInteraction.orderHasChanged _ _); reflexivity. }
    assert (Later : forall j, emissions (trace (world_of (fulfil j w2))) =
                              emissions (trace w2))
      by (intros j; apply fulfil_idle; exact I2).
    split; [reflexivity|]. rewrite W. split.
    { unfold undelegated. cbn [this trace].
      destruct (delegateHandler (this w)); cbn [trace finalizerCall finalizerPromise p_kind];
        rewrite <- ?app_assoc; reflexivity. }
    split.
    { intros x Hx Hin. apply (withoutWide_clean (registry w) x Hx).
      unfold undelegated in Hin. cbn [this registry] in Hin.
      destruct (delegateHandler (this w)); cbn [registry] in Hin;
        [apply detach_incl in Hin|]; exact Hin. }
    split.
    { intros l Hl. unfold undelegated. cbn [this registry]. rewrite Hl. cbn [registry].
      apply detach_out. now apply Registration_eqb_eq. }
    split; [apply undelegated_keeps|].
    split; [exact Em2 | exact Later].
  - intros Hi.
    pose proof (destroy_after w w (idle_handlers_do_nothing_core w None Hi)) as E.
    split; [exact E|]. split.
    + intros Hn. rewrite E. unfold undelegated. rewrite Hn. reflexivity.
    + intros l Hl. destruct (undelegated_keeps w) as (U1 & _ & _ & U4 & U5 & U6 & U7 & U8).
      rewrite U1, U4, U5, U6, U7, U8. repeat split; try exact Hi.
      unfold undelegated. rewrite Hl. reflexivity.
Qed.

(** *** Consistency of every reachable world *)

Lemma length_update {A} (l : list A) (i : nat) (x : A) :
  List.length (update i x l) = List.length l.
Proof.
  revert i. induction l as [|a l IH]; intros [|i]; simpl; auto.
Qed.

Lemma nth_error_alive {A} (l : list A) (i : nat) :
  i < List.length l -> exists x, nth_error l i = Some x.
Proof.
  intros Hlt. destruct (nth_error l i) as [x|] eqn:E; [eauto|].
  apply nth_error_None in E. lia.
Qed.

Lemma In_attach (x y : Registration) (reg : list Registration) :
  In y (attach x reg) -> y = x \/ In y reg.
Proof.
  unfold attach. destruct (existsb _ reg); [auto|].
  intros Hin. apply in_app_or in Hin. destruct Hin as [Hin|[<-|[]]]; auto.
Qed.

Lemma delegates_attach (x : Registration) (reg : list Registration) :
  isDelegate x = false -> delegates (attach x reg) = delegates reg.
Proof.
  intros Hx. unfold attach, delegates. destruct (existsb _ reg); [reflexivity|].
  rewrite filter_app. simpl. rewrite Hx. apply app_nil_r.
Qed.

Lemma delegates_detach (x : Registration) (reg : list Registration) :
  isDelegate x = false -> delegates (detach x reg) = delegates reg.
Proof.
  intros Hx. unfold detach, delegates.
  induction reg as [|y reg IH]; [reflexivity|]. simpl.
  destruct (Registration_eqb x y) eqn:E; simpl.
  - apply Registration_eqb_eq in E. subst y. rewrite Hx. exact IH.
  - destruct (isDelegate y); [now rewrite IH | exact IH].
Qed.

Lemma delegates_withWide (reg : list Registration) :
  delegates (withWide reg) = delegates reg.
Proof. unfold withWide. now rewrite !delegates_attach. Qed.

Lemma delegates_withoutWide (reg : list Registration) :
  delegates (withoutWide reg) = delegates reg.
Proof. unfold withoutWide. now rewrite !delegates_detach. Qed.

Lemma In_withWide (reg : list Registration) (y : Registration) :
  In y (withWide reg) -> In y wideListeners \/ In y reg.
Proof.
  unfold withWide, wideListeners. intros Hin.
  repeat (apply In_attach in Hin; destruct Hin as [->|Hin]; [simpl; tauto|]).
  now right.
Qed.

Lemma delegates_of_detach (x : Registration) (reg : list Registration) :
  delegates (detach x reg) = detach x (delegates reg).
Proof.
  unfold detach, delegates. induction reg as [|y reg IH]; [reflexivity|]. simpl.
  destruct (Registration_eqb x y) eqn:E, (isDelegate y) eqn:D; simpl;
    rewrite ?E, ?D; simpl; now rewrite ?IH.
Qed.

Lemma detach_absent (x : Registration) (reg : list Registration) :
  ~ In x reg -> detach x reg = reg.
Proof.
  unfold detach. induction reg as [|y reg IH]; [reflexivity|]. simpl. intros Hn.
  destruct (Registration_eqb x y) eqn:E.
  - apply Registration_eqb_eq in E. subst y. tauto.
  - simpl. rewrite IH; tauto.
Qed.

Lemma attach_absent (x : Registration) (reg : list Registration) :
  ~ In x reg -> attach x reg = reg ++ [x].
Proof.
  unfold attach. intros Hn. destruct (existsb _ reg) eqn:E; [|reflexivity].
  apply existsb_exists in E. destruct E as (y & Hy & E).
  apply Registration_eqb_eq in E. subst y. contradiction.
Qed.

Lemma fresh_absent w :
  Consistent w -> ~ In (Elem (container (this w)), "mousedown", freshDelegate w) (registry w).
Proof.
  intros C Hin. apply (tokens_used w C) in Hin. lia.
Qed.

Lemma safe_ret_same (c : M unit) :
  (forall w, Consistent w -> c w = Returned tt w) -> Safe c.
Proof. intros E w C. exists w. now rewrite E. Qed.

Lemma held w r : Consistent w -> interaction (this w) = Some r -> exists o, Dragging w r o.
Proof.
  intros C Hi. destruct (nth_error_alive (objects w) r (interaction_alive w C r Hi)) as [o Ho].
  exists o. now split.
Qed.

Lemma safe_onInteractionStart event : Safe (onInteractionStart event).
Proof.
  intros w C. destruct (interaction (this w)) as [r|] eqn:Hi.
  { exists w. split; [eapply pickup_while_dragging_is_ignored_core; eauto | exact C]. }
  destruct (target event) as [n|] eqn:Ht.
  2:{ exists w. split; [|exact C]. unfold onInteractionStart. run_monad.
      rewrite Hi, Ht. reflexivity. }
  eexists. split; [apply (onInteractionStart_idle w event n Hi Ht)|].
  constructor; cbn [this page objects registry reactions nextToken
                    delegateHandler container interaction set_interaction].
  - rewrite delegates_withWide. apply (delegate_installed w C).
  - intros t ty token root selector Hin. apply In_withWide in Hin.
    destruct Hin as [Hin|Hin]; [|eapply (tokens_used w C); eauto].
    unfold wideListeners in Hin. simpl in Hin.
    repeat (destruct Hin as [Hin|Hin]; [discriminate|]). contradiction.
  - intros r E. injection E as <-. rewrite length_app. simpl. lia.
  - intros p Hp. apply (promises_alive w C) in Hp. rewrite length_app. simpl. lia.
Qed.

Lemma safe_invoke_held m (e : Ref -> Effect) :
  Safe (fun w => match interaction (this w) with
                 | None => Returned tt w
                 | Some r => invoke r m (e r) w
                 end).
Proof.
  intros w C. destruct (interaction (this w)) as [r|] eqn:Hi; [|eauto].
  destruct (held w r C Hi) as [o [_ Ho]].
  eexists. split; [apply (invoke_found w r o _ _ Ho)|].
  constructor; cbn [this page objects registry reactions nextToken logged with_page with_objects];
    try rewrite length_update; apply C.
Qed.

Lemma safe_onDragMove event : Safe (onDragMove event).
Proof.
  intros w C.
  destruct (safe_invoke_held (SortableInteraction.onMove (screenX event) (screenY event))
              (fun r => EOnMove r (screenX event) (screenY event)) w C) as (w' & E & C').
  exists w'. split; [|exact C']. rewrite <- E.
  unfold onDragMove. run_monad. destruct (interaction (this w)) eqn:Hi; [|reflexivity].
  cbv beta iota. rewrite Hi. reflexivity.
Qed.

Lemma safe_onScroll : Safe onScroll.
Proof.
  intros w C.
  destruct (safe_invoke_held SortableInteraction.onScroll EOnScroll w C) as (w' & E & C').
  exists w'. split; [|exact C']. rewrite <- E.
  unfold onScroll. run_monad. destruct (interaction (this w)) eqn:Hi; [|reflexivity].
  cbv beta iota. rewrite Hi. reflexivity.
Qed.

Lemma safe_onDragEnd (event : option MouseEvent) : Safe (onDragEnd event).
Proof.
  intros w C. destruct (interaction (this w)) as [r|] eqn:Hi.
  2:{ exists w. split; [now apply idle_handlers_do_nothing_core | exact C]. }
  destruct (held w r C Hi) as [o HD].
  eexists. split; [apply (onDragEnd_dragging w r o event HD)|].
  constructor; cbn [this page objects registry reactions nextToken].
  - rewrite delegates_withoutWide. apply C.
  - intros t ty token root selector Hin. apply withoutWide_incl in Hin.
    eapply (tokens_used w C); eauto.
  - rewrite length_update. apply C.
  - rewrite length_update. intros p Hp. apply in_app_or in Hp.
    destruct Hp as [Hp|[<-|[]]]; [now apply (promises_alive w C)|].
    cbn [finalizerPromise p_ref]. now apply (interaction_alive w C).
Qed.

Lemma safe_onMouseOut event : Safe (onMouseOut event).
Proof.
  intros w C. rewrite onMouseOut_eq.
  destruct (same_element _ _); [now apply safe_onDragEnd | eauto].
Qed.

Lemma safe_onFinalized result : Safe (onFinalized result).
Proof.
  intros w C. destruct (interaction (this w)) as [r|] eqn:Hi.
  2:{ exists w. split; [now apply onFinalized_idle | exact C]. }
  destruct (held w r C Hi) as [o HD].
  eexists. split; [apply (onFinalized_dragging w r o result HD)|].
  constructor; cbn [this page objects registry reactions nextToken
                    delegateHandler container interaction set_interaction];
    try apply C. discriminate.
Qed.

Lemma In_remove_nth {A} (l : list A) (k : nat) (x : A) :
  In x (remove_nth k l) -> In x l.
Proof.
  unfold remove_nth. revert k. induction l as [|a l IH]; intros [|k]; simpl; auto.
  intros [->|Hin]; [auto | right; eapply IH; exact Hin].
Qed.

Lemma safe_fulfil k : Safe (fulfil k).
Proof.
  intros w C. unfold fulfil. run_monad.
  destruct (nth_error (reactions w) k) as [p|] eqn:Hk; [|eauto]. cbv beta iota.
  assert (Hp : In p (reactions w)) by (eapply nth_error_In; eauto).
  destruct (nth_error_alive _ _ (promises_alive w C p Hp)) as [o Ho].
  erewrite settle_found by (cbn [objects with_reactions]; exact Ho).
  apply safe_onFinalized.
  constructor; cbn [this page objects registry reactions nextToken logged
                    with_page with_objects with_reactions];
    try rewrite length_update; try apply C.
  intros q Hq. apply (promises_alive w C). eapply In_remove_nth; exact Hq.
Qed.

Lemma detach_app (x : Registration) (a b : list Registration) :
  detach x (a ++ b) = detach x a ++ detach x b.
Proof. unfold detach. apply filter_app. Qed.

Lemma detach_single (x : Registration) : detach x [x] = [].
Proof.
  unfold detach. cbn [filter].
  rewrite (proj2 (Registration_eqb_eq x x) eq_refl). reflexivity.
Qed.

Lemma undelegated_consistent w : Consistent w -> Consistent (undelegated w).
Proof.
  intros C. unfold undelegated. destruct (delegateHandler (this w)) as [l|] eqn:Hl; [|exact C].
  constructor; cbn [this page objects registry reactions nextToken
                    delegateHandler container interaction set_delegateHandler];
    try apply C.
  - rewrite delegates_of_detach, (delegate_installed w C), Hl.
    apply detach_single.
  - intros t ty token root selector Hin. apply detach_incl in Hin.
    eapply (tokens_used w C); eauto.
Qed.

Lemma safe_destroy : Safe destroy.
Proof.
  intros w C. destruct (safe_onDragEnd None w C) as (w1 & E & C1).
  exists (undelegated w1). split; [now apply destroy_after|].
  now apply undelegated_consistent.
Qed.

Lemma delegating_consistent w :
  Consistent w ->
  delegateHandler (this w) = None ->
  Consistent (delegating w) /\
  registry (delegating w) =
    registry w ++ [(Elem (container (this w)), "mousedown", freshDelegate w)] /\
  delegates (registry (delegating w)) =
    [(Elem (container (this w)), "mousedown", freshDelegate w)].
Proof.
  intros C Hn.
  assert (R : registry (delegating w) =
              registry w ++ [(Elem (container (this w)), "mousedown", freshDelegate w)]).
  { cbn [delegating registry]. apply attach_absent, fresh_absent, C. }
  assert (D : delegates (registry (delegating w)) =
              [(Elem (container (this w)), "mousedown", freshDelegate w)]).
  { rewrite R. unfold delegates. rewrite filter_app.
    fold (delegates (registry w)). rewrite (delegate_installed w C), Hn. reflexivity. }
  split; [|split; assumption].
  constructor.
  - rewrite D. reflexivity.
  - rewrite R. intros t ty token root selector Hin. cbn [delegating nextToken].
    apply in_app_or in Hin. destruct Hin as [Hin|[Hin|[]]].
    + apply (tokens_used w C) in Hin. lia.
    + unfold freshDelegate in Hin. injection Hin as _ _ <- _ _. lia.
  - apply C.
  - apply C.
Qed.

(** [init] is [delegate] in the world that the teardown, if any, leaves. *)
Lemma init_eq w :
  Consistent w ->
  exists w',
    init w = Returned tt (delegating w') /\
    Consistent w' /\
    delegateHandler (this w') = None /\
    freshDelegate w' = freshDelegate w /\
    container (this w') = container (this w) /\
    nextToken w' = nextToken w /\
    interaction (this w') = interaction (this w) /\
    match delegateHandler (this w) with
    | Some l =>
        exists w1, onDragEnd None w = Returned tt w1 /\ w' = undelegated w1 /\
                   delegateHandler (this w1) = Some l /\
                   container (this w1) = container (this w)
    | None => w' = w
    end.
Proof.
  intros C. destruct (delegateHandler (this w)) as [l|] eqn:Hl.
  - destruct (safe_onDragEnd None w C) as (w1 & E & C1).
    assert (K : this w1 = this w /\ nextToken w1 = nextToken w).
    { destruct (interaction (this w)) as [r|] eqn:Hi.
      - destruct (held w r C Hi) as [o HD].
        rewrite (onDragEnd_dragging w r o None HD) in E. injection E as <-. auto.
      - rewrite (idle_handlers_do_nothing_core w None Hi) in E. injection E as <-. auto. }
    destruct K as [Kt Kn].
    exists (undelegated w1). split.
    { apply init_after. rewrite Hl. now apply destroy_after. }
    destruct (undelegated_keeps w1) as (U1 & U2 & U3 & _ & _ & _ & _ & U8).
    split; [now apply undelegated_consistent|]. split; [exact U8|].
    assert (Un : nextToken (undelegated w1) = nextToken w).
    { unfold undelegated. destruct (delegateHandler (this w1)); cbn [nextToken]; exact Kn. }
    split; [unfold freshDelegate; rewrite U2, U3, Un, Kt; reflexivity|].
    split; [rewrite U2, Kt; reflexivity|]. split; [exact Un|].
    split; [rewrite U1, Kt; reflexivity|].
    exists w1. rewrite Kt. auto.
  - exists w. split; [apply init_after; rewrite Hl; reflexivity|]. auto 10.
Qed.

Lemma safe_init : Safe init.
Proof.
  intros w C. destruct (init_eq w C) as (w' & E & C' & Hn & _).
  exists (delegating w'). split; [exact E|]. now apply delegating_consistent.
Qed.

Lemma safe_Sortable_on (name : string) (callback : nat) : Safe (Sortable_on name callback).
Proof.
  intros w C. eexists. split; [reflexivity|].
  constructor; cbn [this page objects registry reactions nextToken logged with_this
                    delegateHandler container interaction set_emitter]; apply C.
Qed.

Lemma safe_handleEvent l event : Safe (handleEvent l event).
Proof.
  destruct l; cbn [handleEvent].
  - apply safe_onDragMove.
  - apply safe_onDragEnd.
  - apply safe_onMouseOut.
  - apply safe_onScroll.
  - intros w C. run_monad.
    destruct (delegated (page w) root selector (target event));
      [now apply safe_onInteractionStart | eauto].
Qed.

Lemma deliver_consistent t type ls event w :
  Consistent w -> Consistent (deliver t type ls event w).
Proof.
  revert w. induction ls as [|l ls IH]; intros w C; cbn [deliver]; [exact C|].
  apply IH. destruct (existsb _ (registry w)); [|exact C].
  destruct (safe_handleEvent l event w C) as (w' & E & C'). now rewrite E.
Qed.

Lemma step_consistent w a : Consistent w -> Consistent (step w a).
Proof.
  intros C. destruct a as [| |name callback|t type event|k]; cbn [step].
  - destruct (safe_init w C) as (w' & E & C'). now rewrite E.
  - destruct (safe_destroy w C) as (w' & E & C'). now rewrite E.
  - destruct (safe_Sortable_on name callback w C) as (w' & E & C'). now rewrite E.
  - now apply deliver_consistent.
  - destruct (safe_fulfil k w C) as (w' & E & C'). now rewrite E.
Qed.

Lemma run_consistent w acts : Consistent w -> Consistent (run w acts).
Proof.
  revert w. induction acts as [|a acts IH]; intros w C; [exact C|].
  apply IH. now apply step_consistent.
Qed.

Lemma boot_consistent c cfg d : Consistent (boot c cfg d).
Proof.
  constructor; cbn; try contradiction; try discriminate. reflexivity.
Qed.

(** Every world reached from a new controller is consistent. *)
Theorem reachable_consistent c cfg d acts : Consistent (run (boot c cfg d) acts).
Proof. apply run_consistent, boot_consistent. Qed.

(** *** Gestures in the emitted events *)

Lemma follows_bracketed w w' : Bracketed w -> Follows w w' -> Bracketed w'.
Proof.
  unfold Bracketed, Follows, phase.
  intros B [[Em Hi]|[(Hi & Hi' & payload & Em)|(Hi & Hi' & changed & payload & Em)]];
    rewrite Em.
  - now rewrite Hi.
  - rewrite fold_left_app. cbn [fold_left].
    destruct (fold_left advance (emissions (trace w)) (Some Quiet)) as [[| |]|];
      cbn; try assumption; contradiction.
  - rewrite fold_left_app.
    destruct (fold_left advance (emissions (trace w)) (Some Quiet)) as [[| |]|];
      try contradiction; destruct changed; cbn; assumption.
Qed.

Lemma follows_refl w : Follows w w.
Proof. left. split; reflexivity. Qed.

Lemma follows_silent w w' w'' :
  emissions (trace w') = emissions (trace w) ->
  interaction (this w') = interaction (this w) ->
  Follows w' w'' -> Follows w w''.
Proof. unfold Follows. intros Em Hi F. rewrite <- Em, <- Hi. exact F. Qed.

Lemma follows_onInteractionStart w event w' :
  Consistent w -> onInteractionStart event w = Returned tt w' -> Follows w w'.
Proof.
  intros C E. destruct (interaction (this w)) as [r|] eqn:Hi.
  { rewrite (pickup_while_dragging_is_ignored_core w event r Hi) in E.
    injection E as <-. apply follows_refl. }
  destruct (target event) as [n|] eqn:Ht.
  2:{ unfold onInteractionStart in E. revert E. run_monad. rewrite Hi, Ht.
      intros E. injection E as <-. apply follows_refl. }
  rewrite (onInteractionStart_idle w event n Hi Ht) in E. injection E as <-.
  right. left. cbn [this trace interaction set_interaction].
  split; [exact Hi|]. split; [discriminate|].
  eexists. rewrite emissions_app. reflexivity.
Qed.

Lemma follows_invoke w r o m e :
  nth_error (objects w) r = Some o ->
  (forall ev p, e <> EEmit ev p) ->
  exists w', invoke r m e w = Returned tt w' /\ Follows w w'.
Proof.
  intros Ho He. eexists. split; [apply (invoke_found w r o m e Ho)|].
  left. cbn [this trace logged with_page with_objects]. split; [|reflexivity].
  rewrite emissions_app. destruct e; cbn; try apply app_nil_r.
  exfalso. eapply He. reflexivity.
Qed.

Lemma follows_onDragMove w event w' :
  Consistent w -> onDragMove event w = Returned tt w' -> Follows w w'.
Proof.
  intros C. unfold onDragMove. run_monad.
  destruct (interaction (this w)) as [r|] eqn:Hi; cbv beta iota.
  - rewrite Hi. destruct (held w r C Hi) as [o [_ Ho]].
    destruct (follows_invoke w r o
                (SortableInteraction.onMove (screenX event) (screenY event))
                (EOnMove r (screenX event) (screenY event)) Ho) as (v & E & F);
      [discriminate|].
    rewrite E. intros E'. injection E' as <-. exact F.
  - intros E. injection E as <-. apply follows_refl.
Qed.

Lemma follows_onScroll w w' :
  Consistent w -> onScroll w = Returned tt w' -> Follows w w'.
Proof.
  intros C. unfold onScroll. run_monad.
  destruct (interaction (this w)) as [r|] eqn:Hi; cbv beta iota.
  - rewrite Hi. destruct (held w r C Hi) as [o [_ Ho]].
    destruct (follows_invoke w r o SortableInteraction.onScroll (EOnScroll r) Ho)
      as (v & E & F); [discriminate|].
    rewrite E. intros E'. injection E' as <-. exact F.
  - intros E. injection E as <-. apply follows_refl.
Qed.

Lemma follows_onDragEnd w (event : option MouseEvent) w' :
  Consistent w -> onDragEnd event w = Returned tt w' -> Follows w w'.
Proof.
  intros C E. destruct (interaction (this w)) as [r|] eqn:Hi.
  - destruct (held w r C Hi) as [o HD].
    rewrite (onDragEnd_dragging w r o event HD) in E. injection E as <-.
    left. cbn [this trace]. split; [|reflexivity].
    rewrite emissions_app. destruct event; cbn; apply app_nil_r.
  - rewrite (idle_handlers_do_nothing_core w event Hi) in E. injection E as <-.
    apply follows_refl.
Qed.

Lemma follows_onMouseOut w event w' :
  Consistent w -> onMouseOut event w = Returned tt w' -> Follows w w'.
Proof.
  intros C. rewrite onMouseOut_eq. destruct (same_element _ _).
  - now apply follows_onDragEnd.
  - intros E. injection E as <-. apply follows_refl.
Qed.

Lemma follows_onFinalized w result w' :
  Consistent w -> onFinalized result w = Returned tt w' -> Follows w w'.
Proof.
  intros C E. destruct (interaction (this w)) as [r|] eqn:Hi.
  - destruct (held w r C Hi) as [o HD].
    rewrite (onFinalized_dragging w r o result HD) in E. injection E as <-.
    right. right. cbn [this trace interaction set_interaction].
    split; [congruence|]. split; [reflexivity|].
    exists (SortableInteraction.orderHasChanged o (page w)). eexists.
    rewrite emissions_app. cbn [emissions notifications].
    destruct (SortableInteraction.orderHasChanged o (page w)); reflexivity.
  - rewrite (onFinalized_idle w result Hi) in E. injection E as <-. apply follows_refl.
Qed.

Lemma follows_fulfil w k w' :
  Consistent w -> fulfil k w = Returned tt w' -> Follows w w'.
Proof.
  intros C. unfold fulfil. run_monad.
  destruct (nth_error (reactions w) k) as [p|] eqn:Hk; cbv beta iota.
  2:{ intros E. injection E as <-. apply follows_refl. }
  assert (Hp : In p (reactions w)) by (eapply nth_error_In; eauto).
  destruct (nth_error_alive _ _ (promises_alive w C p Hp)) as [o Ho].
  erewrite settle_found by (cbn [objects with_reactions]; exact Ho).
  intros E. eapply follows_silent; [| |eapply follows_onFinalized; [|exact E]].
  - cbn [trace logged with_page with_objects with_reactions].
    rewrite emissions_app. apply app_nil_r.
  - reflexivity.
  - constructor; cbn [this page objects registry reactions nextToken logged
                      with_page with_objects with_reactions];
      try rewrite length_update; try apply C.
    intros q Hq. apply (promises_alive w C). eapply In_remove_nth; exact Hq.
Qed.

Lemma follows_undelegated w : Follows w (undelegated w).
Proof.
  left. destruct (undelegated_keeps w) as (U1 & _ & _ & _ & _ & _ & U7 & _). now split.
Qed.

Lemma follows_destroy w w' :
  Consistent w -> destroy w = Returned tt w' -> Follows w w'.
Proof.
  intros C E. destruct (safe_onDragEnd None w C) as (w1 & E1 & _).
  rewrite (destroy_after w w1 E1) in E. injection E as <-.
  pose proof (follows_onDragEnd w None w1 C E1) as F.
  destruct (undelegated_keeps w1) as (U1 & _ & _ & _ & _ & _ & U7 & _).
  unfold Follows in *. rewrite U1, U7. exact F.
Qed.

Lemma follows_init w w' :
  Consistent w -> init w = Returned tt w' -> Follows w w'.
Proof.
  intros C E. destruct (init_eq w C) as (v & Ev & _ & _ & _ & _ & _ & Hi & Hshape).
  rewrite Ev in E. injection E as <-.
  assert (F : Follows w v).
  { destruct (delegateHandler (this w)).
    - destruct Hshape as (w1 & E1 & -> & _). apply (follows_destroy w _ C).
      now apply destroy_after.
    - subst v. apply follows_refl. }
  unfold Follows in *. cbn [delegating this trace interaction set_delegateHandler].
  rewrite emissions_app. cbn [emissions]. rewrite app_nil_r. exact F.
Qed.

Lemma follows_handleEvent w l event w' :
  Consistent w -> handleEvent l event w = Returned tt w' -> Follows w w'.
Proof.
  intros C. destruct l; cbn [handleEvent].
  - now apply follows_onDragMove.
  - now apply follows_onDragEnd.
  - now apply follows_onMouseOut.
  - now apply follows_onScroll.
  - run_monad. destruct (delegated (page w) root selector (target event)).
    + now apply follows_onInteractionStart.
    + intros E. injection E as <-. apply follows_refl.
Qed.

Lemma deliver_bracketed t type ls event w :
  Consistent w -> Bracketed w -> Bracketed (deliver t type ls event w).
Proof.
  revert w. induction ls as [|l ls IH]; intros w C B; cbn [deliver]; [exact B|].
  destruct (existsb _ (registry w)); [|now apply IH].
  destruct (safe_handleEvent l event w C) as (w' & E & C'). rewrite E. cbn [world_of].
  apply IH; [exact C'|]. eapply follows_bracketed; [exact B|].
  eapply follows_handleEvent; eauto.
Qed.

Lemma step_bracketed w a : Consistent w -> Bracketed w -> Bracketed (step w a).
Proof.
  intros C B. destruct a as [| |name callback|t type event|k]; cbn [step].
  - destruct (safe_init w C) as (w' & E & _). rewrite E.
    eapply follows_bracketed; [exact B | eapply follows_init; eauto].
  - destruct (safe_destroy w C) as (w' & E & _). rewrite E.
    eapply follows_bracketed; [exact B | eapply follows_destroy; eauto].
  - unfold Sortable_on. run_monad. cbn [world_of]. unfold Bracketed in *.
    cbn [trace this interaction logged with_this set_emitter].
    rewrite emissions_app. cbn [emissions]. rewrite app_nil_r. exact B.
  - now apply deliver_bracketed.
  - destruct (safe_fulfil k w C) as (w' & E & _). rewrite E.
    eapply follows_bracketed; [exact B | eapply follows_fulfil; eauto].
Qed.

(** X7.  In every world reached from a new controller the emitted events
    are whole gestures: no [start] during a gesture, one [end] per gesture,
    a [changed] only directly after its [end]. *)
Theorem reachable_bracketed c cfg d acts : Bracketed (run (boot c cfg d) acts).
Proof.
  assert (G : forall w, Consistent w -> Bracketed w -> Bracketed (run w acts)).
  { induction acts as [|a acts IH]; intros w C B; [exact B|].
    apply IH; [now apply step_consistent | now apply step_bracketed]. }
  apply G; [apply boot_consistent | reflexivity].
Qed.

(** *** init *)

Lemma init_installs w :
  Consistent w ->
  exists w',
    run w [Init] = delegating w' /\
    init w = Returned tt (delegating w') /\
    Consistent w' /\
    delegateHandler (this w') = None /\
    freshDelegate w' = freshDelegate w /\
    container (this w') = container (this w) /\
    interaction (this w') = interaction (this w) /\
    Consistent (delegating w') /\
    registry (delegating w') =
      registry w' ++ [(Elem (container (this w)), "mousedown", freshDelegate w)] /\
    delegates (registry (delegating w')) =
      [(Elem (container (this w)), "mousedown", freshDelegate w)] /\
    match delegateHandler (this w) with
    | Some l =>
        exists w1, onDragEnd None w = Returned tt w1 /\ w' = undelegated w1 /\
                   delegateHandler (this w1) = Some l /\
                   container (this w1) = container (this w)
    | None => w' = w
    end.
Proof.
  intros C. destruct (init_eq w C) as (w' & E & C' & Hn & Hf & Hc & _ & Hi & Hshape).
  destruct (delegating_consistent w' C' Hn) as (CD & R & D).
  exists w'. rewrite Hf, Hc in *. cbn [run fold_left step]. rewrite E.
  cbn [world_of]. auto 12.
Qed.

Lemma anonymous_fresh w :
  anonymous (Elem (container (this (delegating w))), "mousedown", freshDelegate (delegating w)) =
  anonymous (Elem (container (this w)), "mousedown", freshDelegate w).
Proof. reflexivity. Qed.

(** C9.  From a consistent world (every reachable world is one), [init()]
    returns with exactly one delegated listener attached to the
    container, the new one, to which [delegateHandler] refers.  When one
    was installed before, it is detached and its token cleared before the
    new one is attached.  So after any actions that end with [init()], in
    particular after any number of [init()] calls, exactly one delegated
    listener is installed, and a second [init()] leaves the same delegated
    listeners as the first, up to the identity of the new token (and,
    from an idle controller, the same registry). *)
Theorem init_keeps_one_delegate w :
  Consistent w ->
  let c := container (this w) in
  let w1 := run w [Init] in
  returns (init w) = true /\
  delegates (registry w1) = [(Elem c, "mousedown", freshDelegate w)] /\
  delegateHandler (this w1) = Some (freshDelegate w) /\
  (forall l, delegateHandler (this w) = Some l ->
     exists before,
       trace w1 = before ++
         [ EOff (Elem c) "mousedown" l;
           ESetDelegateHandler None;
           EOn (Elem c) "mousedown" (freshDelegate w);
           ESetDelegateHandler (Some (freshDelegate w)) ]) /\
  (forall acts, List.length (delegates (registry (run w (acts ++ [Init])))) = 1) /\
  (forall n, List.length (delegates (registry (run w (repeat Init (S n))))) = 1) /\
  map anonymous (delegates (registry (run w [Init; Init]))) =
    map anonymous (delegates (registry w1)) /\
  (Idle w ->
   map anonymous (registry (run w [Init; Init])) = map anonymous (registry w1)).
Proof.
  intros C. cbv zeta.
  assert (One : forall acts, List.length (delegates (registry (run w (acts ++ [Init])))) = 1).
  { intros acts. unfold run. rewrite fold_left_app. fold (run w acts).
    destruct (init_installs (run w acts) (run_consistent w acts C))
      as (w' & E & _ & _ & _ & _ & _ & _ & _ & _ & D & _).
    change (fold_left step [Init] (run w acts)) with (run (run w acts) [Init]).
    rewrite E, D. reflexivity. }
  destruct (init_installs w C)
    as (w' & E & Ei & C' & Hn & Hf & Hc & Hi & CD & R & D & Hshape).
  destruct (init_installs (delegating w') CD)
    as (w'' & E2 & Ei2 & C'' & Hn2 & Hf2 & Hc2 & Hi2 & CD2 & R2 & D2 & Hshape2).
  assert (Run2 : run w [Init; Init] = delegating w'').
  { change (run w [Init; Init]) with (run (run w [Init]) [Init]). now rewrite E. }
  rewrite Run2, E.
  split; [rewrite Ei; reflexivity|]. split; [exact D|].
  split; [cbn [delegating this delegateHandler set_delegateHandler]; now rewrite Hf|].
  split.
  { intros l Hl. rewrite Hl in Hshape. destruct Hshape as (w1 & _ & -> & Hl1 & Hc1).
    exists (trace w1). unfold undelegated in Hf |- *. rewrite Hl1 in Hf |- *.
    unfold delegating. cbn [this trace container set_delegateHandler] in Hf |- *.
    rewrite Hc1 in Hf |- *. rewrite Hf, <- app_assoc. reflexivity. }
  split; [exact One|]. split.
  { intros n. cbn [repeat]. rewrite repeat_cons. apply One. }
  split.
  { rewrite D2, D. cbn [map]. rewrite anonymous_fresh.
    rewrite Hc, Hf. reflexivity. }
  intros Hidle.
  assert (Hidle1 : Idle (delegating w')).
  { unfold Idle in *. cbn [delegating this interaction set_delegateHandler]. congruence. }
  cbn [delegating this delegateHandler set_delegateHandler] in Hshape2.
  destruct Hshape2 as (w1 & E1 & -> & Hl1 & Hc1).
  rewrite (idle_handlers_do_nothing_core _ None Hidle1) in E1. injection E1 as <-.
  rewrite R2, R.
  assert (Rw : registry (undelegated (delegating w')) = registry w').
  { unfold undelegated.
    cbn [delegating this delegateHandler container set_delegateHandler registry].
    rewrite (attach_absent _ _ (fresh_absent w' C')).
    rewrite detach_app, (detach_absent _ _ (fresh_absent w' C')), detach_single.
    apply app_nil_r. }
  rewrite Rw, !map_app. f_equal. cbn [map].
  rewrite anonymous_fresh, Hc, Hf. reflexivity.
Qed.
(** *** What no handler does *)

Lemma frame_refl w : Frame w w.
Proof.
  constructor; auto. exists []. split; [now rewrite app_nil_r | constructor].
Qed.

Lemma frame_trans w w' w'' : Frame w w' -> Frame w' w'' -> Frame w w''.
Proof.
  intros [(es & T & F) R Hc Hg D] [(es' & T' & F') R' Hc' Hg' D'].
  constructor.
  - exists (es ++ es'). split; [rewrite T', T; symmetry; apply app_assoc|].
    apply Forall_app. now split.
  - intros x Hx. destruct (R' x Hx) as [Hin|H']; [now apply R | tauto].
  - congruence.
  - congruence.
  - unfold delegateSelector in *. rewrite Hc, Hg in D'.
    destruct D' as [E|[E|(token & E)]]; [rewrite E; exact D | now right; left |].
    right. right. exists token. exact E.
Qed.

(** A world that differs from [w] in effects logged, in the document and
    in the objects only. *)
Lemma frame_logged w w' es :
  trace w' = trace w ++ es ->
  Forall caught es ->
  registry w' = registry w ->
  container (this w') = container (this w) ->
  config (this w') = config (this w) ->
  delegateHandler (this w') = delegateHandler (this w) ->
  Frame w w'.
Proof.
  intros T F R Hc Hg D. constructor; auto.
  - exists es. now split.
  - intros x Hx. rewrite R in Hx. now left.
Qed.

Ltac all_caught := repeat (constructor; [exact I|]); constructor.

Lemma frame_onInteractionStart w event w' :
  onInteractionStart event w = Returned tt w' -> Frame w w'.
Proof.
  intros E. destruct (interaction (this w)) as [r|] eqn:Hi.
  { rewrite (pickup_while_dragging_is_ignored_core w event r Hi) in E.
    injection E as <-. apply frame_refl. }
  destruct (target event) as [n|] eqn:Ht.
  2:{ unfold onInteractionStart in E. revert E. run_monad. rewrite Hi, Ht.
      intros E. injection E as <-. apply frame_refl. }
  rewrite (onInteractionStart_idle w event n Hi Ht) in E. injection E as <-.
  constructor; cbn [this trace registry container config delegateHandler set_interaction];
    auto.
  - eexists. split; [reflexivity | all_caught].
  - intros x Hx. apply In_withWide in Hx. tauto.
Qed.

Lemma frame_invoke w r o m e :
  nth_error (objects w) r = Some o ->
  caught e ->
  exists w', invoke r m e w = Returned tt w' /\ Frame w w'.
Proof.
  intros Ho He. eexists. split; [apply (invoke_found w r o m e Ho)|].
  eapply frame_logged; try reflexivity. now constructor.
Qed.

Lemma frame_onDragMove w event w' :
  Consistent w -> onDragMove event w = Returned tt w' -> Frame w w'.
Proof.
  intros C. unfold onDragMove. run_monad.
  destruct (interaction (this w)) as [r|] eqn:Hi; cbv beta iota.
  - rewrite Hi. destruct (held w r C Hi) as [o [_ Ho]].
    destruct (frame_invoke w r o
                (SortableInteraction.onMove (screenX event) (screenY event))
                (EOnMove r (screenX event) (screenY event)) Ho I) as (v & E & F).
    rewrite E. intros E'. injection E' as <-. exact F.
  - intros E. injection E as <-. apply frame_refl.
Qed.

Lemma frame_onScroll w w' :
  Consistent w -> onScroll w = Returned tt w' -> Frame w w'.
Proof.
  intros C. unfold onScroll. run_monad.
  destruct (interaction (this w)) as [r|] eqn:Hi; cbv beta iota.
  - rewrite Hi. destruct (held w r C Hi) as [o [_ Ho]].
    destruct (frame_invoke w r o SortableInteraction.onScroll (EOnScroll r) Ho I)
      as (v & E & F).
    rewrite E. intros E'. injection E' as <-. exact F.
  - intros E. injection E as <-. apply frame_refl.
Qed.

Lemma frame_onDragEnd w (event : option MouseEvent) w' :
  Consistent w -> onDragEnd event w = Returned tt w' -> Frame w w'.
Proof.
  intros C E. destruct (interaction (this w)) as [r|] eqn:Hi.
  - destruct (held w r C Hi) as [o HD].
    rewrite (onDragEnd_dragging w r o event HD) in E. injection E as <-.
    constructor; cbn [this trace registry]; auto.
    + eexists. split; [reflexivity|]. destruct event; all_caught.
    + intros x Hx. apply withoutWide_incl in Hx. now left.
  - rewrite (idle_handlers_do_nothing_core w event Hi) in E. injection E as <-.
    apply frame_refl.
Qed.

Lemma frame_onMouseOut w event w' :
  Consistent w -> onMouseOut event w = Returned tt w' -> Frame w w'.
Proof.
  intros C. rewrite onMouseOut_eq. destruct (same_element _ _).
  - now apply frame_onDragEnd.
  - intros E. injection E as <-. apply frame_refl.
Qed.

Lemma frame_onFinalized w result w' :
  Consistent w -> onFinalized result w = Returned tt w' -> Frame w w'.
Proof.
  intros C E. destruct (interaction (this w)) as [r|] eqn:Hi.
  - destruct (held w r C Hi) as [o HD].
    rewrite (onFinalized_dragging w r o result HD) in E. injection E as <-.
    eapply frame_logged; try reflexivity. unfold notifications.
    destruct (SortableInteraction.orderHasChanged o (page w)); all_caught.
  - rewrite (onFinalized_idle w result Hi) in E. injection E as <-. apply frame_refl.
Qed.

Lemma frame_fulfil w k w' :
  Consistent w -> fulfil k w = Returned tt w' -> Frame w w'.
Proof.
  intros C. unfold fulfil. run_monad.
  destruct (nth_error (reactions w) k) as [p|] eqn:Hk; cbv beta iota.
  2:{ intros E. injection E as <-. apply frame_refl. }
  assert (Hp : In p (reactions w)) by (eapply nth_error_In; eauto).
  destruct (nth_error_alive _ _ (promises_alive w C p Hp)) as [o Ho].
  erewrite settle_found by (cbn [objects with_reactions]; exact Ho).
  intros E. eapply frame_trans; [|eapply frame_onFinalized; [|exact E]].
  - eapply frame_logged; try reflexivity. all_caught.
  - constructor; cbn [this page objects registry reactions nextToken logged
                      with_page with_objects with_reactions];
      try rewrite length_update; try apply C.
    intros q Hq. apply (promises_alive w C). eapply In_remove_nth; exact Hq.
Qed.

Lemma frame_undelegated w : Frame w (undelegated w).
Proof.
  unfold undelegated. destruct (delegateHandler (this w)) as [l|] eqn:Hl;
    [|apply frame_refl].
  constructor; cbn [this trace registry container config delegateHandler
                    set_delegateHandler]; auto.
  - eexists. split; [reflexivity | all_caught].
  - intros x Hx. apply detach_incl in Hx. now left.
Qed.

Lemma frame_destroy w w' :
  Consistent w -> destroy w = Returned tt w' -> Frame w w'.
Proof.
  intros C E. destruct (safe_onDragEnd None w C) as (w1 & E1 & _).
  rewrite (destroy_after w w1 E1) in E. injection E as <-.
  eapply frame_trans; [eapply frame_onDragEnd; eauto | apply frame_undelegated].
Qed.

Lemma frame_delegating w : Frame w (delegating w).
Proof.
  constructor; cbn [delegating this trace registry container config delegateHandler
                    set_delegateHandler]; auto.
  - eexists. split; [reflexivity | all_caught].
  - intros x Hx. apply In_attach in Hx. destruct Hx as [->|Hx]; auto.
  - right. right. exists (nextToken w). reflexivity.
Qed.

Lemma frame_init w w' :
  Consistent w -> init w = Returned tt w' -> Frame w w'.
Proof.
  intros C E. destruct (init_eq w C) as (v & Ev & _ & _ & _ & _ & _ & _ & Hshape).
  rewrite Ev in E. injection E as <-.
  eapply frame_trans; [|apply frame_delegating].
  destruct (delegateHandler (this w)).
  - destruct Hshape as (w1 & E1 & -> & _). apply (frame_destroy w _ C).
    now apply destroy_after.
  - subst v. apply frame_refl.
Qed.

Lemma frame_handleEvent w l event w' :
  Consistent w -> handleEvent l event w = Returned tt w' -> Frame w w'.
Proof.
  intros C. destruct l; cbn [handleEvent].
  - now apply frame_onDragMove.
  - now apply frame_onDragEnd.
  - now apply frame_onMouseOut.
  - now apply frame_onScroll.
  - run_monad. destruct (delegated (page w) root selector (target event)).
    + now apply frame_onInteractionStart.
    + intros E. injection E as <-. apply frame_refl.
Qed.

Lemma frame_tidy w w' : Tidy w -> Frame w w' -> Tidy w'.
Proof.
  intros [N O S] [(es & T & F) R Hc Hg D]. constructor.
  - rewrite T. apply Forall_app. now split.
  - intros x Hx Hd. destruct (R x Hx) as [Hin|[Hin|Hin]]; [now apply O | exact Hin |].
    congruence.
  - unfold delegateSelector in *. rewrite Hc, Hg. intros l Hl.
    destruct D as [E|[E|(token & E)]].
    + apply S. congruence.
    + congruence.
    + exists token. congruence.
Qed.

Lemma deliver_frame t type ls event w :
  Consistent w -> Frame w (deliver t type ls event w).
Proof.
  revert w. induction ls as [|l ls IH]; intros w C; cbn [deliver]; [apply frame_refl|].
  destruct (existsb _ (registry w)); [|now apply IH].
  destruct (safe_handleEvent l event w C) as (w' & E & C'). rewrite E. cbn [world_of].
  eapply frame_trans; [eapply frame_handleEvent; eauto | now apply IH].
Qed.

Lemma step_frame w a : Consistent w -> Frame w (step w a).
Proof.
  intros C. destruct a as [| |name callback|t type event|k]; cbn [step].
  - destruct (safe_init w C) as (w' & E & _). rewrite E. eapply frame_init; eauto.
  - destruct (safe_destroy w C) as (w' & E & _). rewrite E. eapply frame_destroy; eauto.
  - unfold Sortable_on. run_monad. cbn [world_of].
    eapply frame_logged; try reflexivity. all_caught.
  - now apply deliver_frame.
  - destruct (safe_fulfil k w C) as (w' & E & _). rewrite E. eapply frame_fulfil; eauto.
Qed.

Lemma run_frame w acts : Consistent w -> Frame w (run w acts).
Proof.
  revert w. induction acts as [|a acts IH]; intros w C; [apply frame_refl|].
  eapply frame_trans; [apply (step_frame w a C)|].
  apply IH. now apply step_consistent.
Qed.

Lemma boot_tidy c cfg d : Tidy (boot c cfg d).
Proof.
  constructor; cbn; try contradiction; try discriminate. constructor.
Qed.

Lemma reachable_tidy c cfg d acts : Tidy (run (boot c cfg d) acts).
Proof.
  eapply frame_tidy; [apply boot_tidy | apply run_frame, boot_consistent].
Qed.

(** *** Handlers the browser calls *)

Lemma filter_none {A} (f : A -> bool) (l : list A) :
  (forall x, In x l -> f x = false) -> filter f l = [].
Proof.
  induction l as [|a l IH]; intros Hf; [reflexivity|]. simpl.
  rewrite (Hf a) by now left. apply IH. intros x Hx. apply Hf. now right.
Qed.

Lemma filter_through {A} (f g : A -> bool) (l : list A) :
  (forall x, In x l -> f x = true -> g x = true) ->
  filter f l = filter f (filter g l).
Proof.
  induction l as [|a l IH]; intros Hf; [reflexivity|]. simpl.
  assert (IH' : filter f l = filter f (filter g l))
    by (apply IH; intros x Hx; apply Hf; now right).
  destruct (f a) eqn:Fa.
  - rewrite (Hf a (or_introl eq_refl) Fa). simpl. rewrite Fa. now f_equal.
  - destruct (g a); simpl; rewrite ?Fa; exact IH'.
Qed.

(** In a consistent and tidy world the container has, for [mousedown], the
    delegated listener [delegateHandler] refers to and no other. *)
Lemma mousedown_listeners w :
  Consistent w -> Tidy w ->
  listenersOf (Elem (container (this w))) "mousedown" (registry w) =
  match delegateHandler (this w) with
  | Some l => [l]
  | None => []
  end.
Proof.
  intros C T. unfold listenersOf.
  rewrite (filter_through _ isDelegate).
  2:{ intros x Hx Hf. destruct (isDelegate x) eqn:D; [reflexivity|].
      pose proof (own_listeners w T x Hx D) as Hw. unfold wideListeners in Hw.
      simpl in Hw. repeat (destruct Hw as [<-|Hw]; [discriminate Hf|]). contradiction. }
  fold (delegates (registry w)). rewrite (delegate_installed w C).
  destruct (delegateHandler (this w)); [|reflexivity].
  cbn [filter fst snd Target_eqb]. rewrite Nat.eqb_refl. reflexivity.
Qed.

Lemma mousedown_dispatch w event :
  Consistent w -> Tidy w ->
  dispatch (Elem (container (this w))) "mousedown" event w =
  match delegateHandler (this w) with
  | Some _ =>
      if delegated (page w) (container (this w)) (delegateSelector w) (target event)
      then world_of (onInteractionStart event w)
      else w
  | None => w
  end.
Proof.
  intros C T. unfold dispatch. rewrite (mousedown_listeners w C T).
  destruct (delegateHandler (this w)) as [l|] eqn:Hl; [|reflexivity].
  cbn [deliver].
  assert (Hin : In (Elem (container (this w)), "mousedown", l) (registry w)).
  { assert (Hd : In (Elem (container (this w)), "mousedown", l) (delegates (registry w)))
      by (rewrite (delegate_installed w C), Hl; now left).
    unfold delegates in Hd. apply filter_In in Hd. tauto. }
  assert (Hex : existsb (Registration_eqb (Elem (container (this w)), "mousedown", l))
                  (registry w) = true).
  { apply existsb_exists. eexists. split; [exact Hin|]. now apply Registration_eqb_eq. }
  rewrite Hex.
  destruct (delegate_shape w T l Hl) as (token & ->).
  cbn [handleEvent]. run_monad.
  destruct (delegated _ _ _ _); reflexivity.
Qed.

Lemma reachable_constants c cfg d acts :
  container (this (run (boot c cfg d) acts)) = c /\
  config (this (run (boot c cfg d) acts)) = merge cfg.
Proof.
  destruct (run_frame (boot c cfg d) acts (boot_consistent c cfg d)) as [_ _ Hc Hg _].
  split; assumption.
Qed.


(** *** Further properties of the handlers *)

(** X1.  The two remaining guards.  A pointer-down whose [target] is
    [null] changes nothing, whether the controller is idle or dragging; and
    while the controller is idle a [mouseout] changes nothing, whatever its
    [relatedTarget], the root element included. *)
Theorem guarded_events_are_ignored w event :
  (target event = None -> onInteractionStart event w = Returned tt w) /\
  (Idle w -> onMouseOut event w = Returned tt w).
Proof.
  split.
  - intros Ht. unfold onInteractionStart. run_monad. rewrite Ht.
    destruct (interaction (this w)); reflexivity.
  - intros Hi. rewrite onMouseOut_eq.
    destruct (same_element _ _); [now apply idle_handlers_do_nothing_core | reflexivity].
Qed.

(** X2.  During a drag, [onDragMove] hands the event's screen coordinates
    to [onMove] of the interaction held, and [onScroll] calls its
    [onScroll]; either changes the object and the document as that method
    does and nothing else: no listener is attached or detached, nothing is
    emitted, no promise is registered, the controller's fields stay. *)
Theorem moves_only_reach_the_interaction w r o event :
  Dragging w r o ->
  let moved := SortableInteraction.onMove (screenX event) (screenY event) o (page w) in
  let scrolled := SortableInteraction.onScroll o (page w) in
  onDragMove event w =
    Returned tt
      {| this := this w; page := snd moved; objects := update r (fst moved) (objects w);
         registry := registry w; reactions := reactions w; nextToken := nextToken w;
         trace := trace w ++ [EOnMove r (screenX event) (screenY event)] |} /\
  onScroll w =
    Returned tt
      {| this := this w; page := snd scrolled;
         objects := update r (fst scrolled) (objects w);
         registry := registry w; reactions := reactions w; nextToken := nextToken w;
         trace := trace w ++ [EOnScroll r] |}.
Proof.
  intros [Hi Ho]. cbv zeta. split.
  - unfold onDragMove. run_monad. rewrite Hi. cbv beta iota. rewrite Hi.
    now rewrite (invoke_found w r o _ _ Ho).
  - unfold onScroll. run_monad. rewrite Hi. cbv beta iota. rewrite Hi.
    now rewrite (invoke_found w r o _ _ Ho).
Qed.

(** X3.  Whatever is done to a new controller, in whatever order (calls of
    [init], [destroy] and [on], events delivered by the browser, promises
    fulfilling), no handler and no public method ever throws. *)
Theorem reachable_never_throws c cfg d acts error :
  ~ In (EUncaught error) (trace (run (boot c cfg d) acts)).
Proof.
  intros Hin.
  pose proof (no_exception _ (reachable_tidy c cfg d acts)) as N.
  rewrite Forall_forall in N. exact (N _ Hin).
Qed.

(** X4.  In every world reached from a new controller, a [mousedown] that
    arrives at the container meets at most one listener of the controller,
    however often [init] was called: if the delegated listener is installed
    and its selector test, for [`${items} ${handle}`] with the handle
    defaulting to the empty string, accepts the event, then
    [onInteractionStart] runs once; otherwise nothing happens. *)
Theorem pointer_down_meets_one_delegate c cfg d acts event :
  let w := run (boot c cfg d) acts in
  let selector :=
    String.append (items cfg)
      (String.append " " (match handle cfg with Some h => h | None => "" end)) in
  dispatch (Elem c) "mousedown" event w =
  match delegateHandler (this w) with
  | Some _ =>
      if delegated (page w) c selector (target event)
      then world_of (onInteractionStart event w)
      else w
  | None => w
  end.
Proof.
  cbv zeta. destruct (reachable_constants c cfg d acts) as [Hc Hg].
  pose proof (mousedown_dispatch (run (boot c cfg d) acts) event
                (reachable_consistent c cfg d acts) (reachable_tidy c cfg d acts)) as E.
  unfold delegateSelector in E. rewrite Hc, Hg in E. exact E.
Qed.

(** X5.  After [destroy()], in whatever state it is called, the token is
    cleared, no delegated listener is attached, and a [mousedown] on the
    container does nothing: no gesture starts until [init()] is called
    again. *)
Theorem destroyed_controller_is_inert c cfg d acts event :
  let w := run (boot c cfg d) (acts ++ [Destroy]) in
  delegateHandler (this w) = None /\
  delegates (registry w) = [] /\
  dispatch (Elem c) "mousedown" event w = w.
Proof.
  cbv zeta.
  assert (Hn : delegateHandler (this (run (boot c cfg d) (acts ++ [Destroy]))) = None).
  { unfold run. rewrite fold_left_app. cbn [fold_left step].
    fold (run (boot c cfg d) acts).
    destruct (safe_onDragEnd None _ (reachable_consistent c cfg d acts)) as (w1 & E1 & _).
    rewrite (destroy_after _ w1 E1). cbn [world_of]. apply undelegated_keeps. }
  pose proof (reachable_consistent c cfg d (acts ++ [Destroy])) as C.
  split; [exact Hn|]. split.
  - rewrite (delegate_installed _ C), Hn. reflexivity.
  - destruct (reachable_constants c cfg d (acts ++ [Destroy])) as [Hc _].
    pose proof (mousedown_dispatch _ event C (reachable_tidy c cfg d (acts ++ [Destroy])))
      as E.
    rewrite Hc, Hn in E. exact E.
Qed.


Lemma withoutWide_app (a b : list Registration) :
  withoutWide (a ++ b) = withoutWide a ++ withoutWide b.
Proof. unfold withoutWide. now rewrite !detach_app. Qed.

Lemma withoutWide_attach (x : Registration) (reg : list Registration) :
  In x wideListeners -> withoutWide (attach x reg) = withoutWide reg.
Proof.
  intros Hx. unfold attach. destruct (existsb _ reg); [reflexivity|].
  rewrite withoutWide_app.
  assert (E : withoutWide [x] = []).
  { unfold wideListeners in Hx. simpl in Hx.
    repeat (destruct Hx as [<-|Hx]; [reflexivity|]). contradiction. }
  rewrite E. apply app_nil_r.
Qed.

Lemma withoutWide_absent (reg : list Registration) :
  (forall x, In x wideListeners -> ~ In x reg) -> withoutWide reg = reg.
Proof.
  intros Hn. unfold withoutWide.
  rewrite (detach_absent (DocumentBody, "mousemove", LMove) reg) by (apply Hn; simpl; tauto).
  rewrite (detach_absent (DocumentBody, "mouseup", LEnd) reg) by (apply Hn; simpl; tauto).
  rewrite (detach_absent (Window, "mouseout", LMouseOut) reg) by (apply Hn; simpl; tauto).
  apply detach_absent, Hn. simpl. tauto.
Qed.


(** *** A pickup whose constructor or [start()] throws *)

Lemma throwing_pickup newThrows startThrows w event n :
  Idle w ->
  target event = Some n ->
  let r := List.length (objects w) in
  let c := container (this w) in
  let sel := cfg_items (config (this w)) in
  let o0 := SortableInteraction.new c (pickedItem w n) sel (screenX event) (screenY event) in
  Throwing.onInteractionStart newThrows startThrows event w =
  if newThrows c (pickedItem w n) sel (screenX event) (screenY event)
  then Thrown "TypeError" w
  else if startThrows o0 (page w)
  then Thrown "TypeError"
         {| this := set_interaction (Some r) (this w);
            page := page w;
            objects := objects w ++ [o0];
            registry := registry w;
            reactions := reactions w;
            nextToken := nextToken w;
            trace := trace w ++
              [ ENew r c (pickedItem w n) sel (screenX event) (screenY event);
                ESetInteraction (Some r) ] |}
  else onInteractionStart event w.
Proof.
  intros Hi Ht. cbv zeta. unfold pickedItem.
  unfold Throwing.onInteractionStart, onInteractionStart, Throwing.construct, Throwing.start.
  run_monad. unfold Idle in Hi. rewrite Hi, Ht.
  destruct (newThrows _ _ _ _ _); [reflexivity|]. cbv beta iota.
  cbn [this page objects interaction with_this with_objects logged set_interaction].
  rewrite !nth_error_last. cbv beta iota.
  cbn [this page objects interaction with_this with_objects logged set_interaction].
  destruct (startThrows _ _); [|reflexivity].
  world_simpl. reflexivity.
Qed.


(** With a constructor and a [start()] that never throw, this is
    [onInteractionStart] as embedded above. *)
Lemma throwing_agrees newThrows startThrows w event :
  (forall c i sel x y, newThrows c i sel x y = false) ->
  (forall o d, startThrows o d = false) ->
  Throwing.onInteractionStart newThrows startThrows event w = onInteractionStart event w.
Proof.
  intros Hn Hs. destruct (interaction (this w)) as [r|] eqn:Hi.
  { rewrite (pickup_while_dragging_is_ignored_core w event r Hi).
    unfold Throwing.onInteractionStart. run_monad. rewrite Hi. reflexivity. }
  destruct (target event) as [n|] eqn:Ht.
  - rewrite (throwing_pickup newThrows startThrows w event n Hi Ht), Hn, Hs. reflexivity.
  - unfold Throwing.onInteractionStart, onInteractionStart. run_monad.
    rewrite Hi, Ht. reflexivity.
Qed.

(** *** A promise of another interaction fulfils *)

Lemma nth_error_update_other {A} (l : list A) (i j : nat) (x : A) :
  i <> j -> nth_error (update i x l) j = nth_error l j.
Proof.
  revert i j. induction l as [|a l IH]; intros [|i] [|j] Hne; simpl; auto;
    contradiction.
Qed.

(** The continuation of a promise does not know whose promise it was: when
    a promise of some other interaction fulfils while the controller holds
    [r], the gesture of [r] is ended, without a call of [off], [drop] or
    [abort], with the items of the document as it is and the value of the
    foreign promise as [result]. *)
Lemma fulfil_foreign w r o k p o' :
  Dragging w r o ->
  nth_error (reactions w) k = Some p ->
  p_ref p <> r ->
  nth_error (objects w) (p_ref p) = Some o' ->
  let s := settled (p_kind p) o' (page w) in
  fulfil k w =
  Returned tt
    {| this := set_interaction None (this w);
       page := snd (fst s);
       objects := update (p_ref p) (fst (fst s)) (objects w);
       registry := registry w;
       reactions := remove_nth k (reactions w);
       nextToken := nextToken w;
       trace := trace w ++
         EFulfilled p :: ESetInteraction None ::
         notifications (SortableInteraction.orderHasChanged o (snd (fst s)))
           (find (snd (fst s)) (cfg_items (config (this w))) (container (this w)))
           (snd s) |}.
Proof.
  intros [Hi Ho] Hk Hr Ho'. cbv zeta.
  unfold fulfil. run_monad. rewrite Hk. cbv beta iota.
  erewrite settle_found by (cbn [objects with_reactions]; exact Ho').
  erewrite onFinalized_dragging.
  2:{ split; cbn [this objects logged with_page with_objects with_reactions interaction];
      [exact Hi | rewrite nth_error_update_other by exact Hr; exact Ho]. }
  world_simpl. cbn [page with_reactions]. reflexivity.
Qed.

End Properties.

(** ** The interaction of the specification *)

(** Modelled from the spec: after [abort()] the final anchor is the
    original one, so [orderHasChanged()] answers false whatever moves came
    before. *)
Lemma abort_reports_no_change (o : SpecInteraction.state) (d : ListPage.doc) :
  SpecInteraction.orderHasChanged
    (fst (fst (finalState None o d))) (snd (fst (finalState None o d))) = false.
Proof.
  unfold finalState. cbn. unfold SpecInteraction.orderHasChanged. cbn.
  destruct (SpecInteraction.originalBefore o) as [b|]; cbn;
    [rewrite Nat.eqb_refl|]; reflexivity.
Qed.

(** ** The scenarios of the specification *)

Import Scenario.

(** Pick up A, move the pointer until it overlaps C, release: the order is
    [B, C, A] and [changed] carries [{item: A, before: null}]. *)
Example scenario_drag_A_over_C :
  let w := run dragging [ Dispatch DocumentBody "mousemove" (at_ A 25);
                          Dispatch DocumentBody "mouseup" (at_ A 25);
                          Fulfil 0 ] in
  ListPage.rows (page w) = [B; C; A] /\
  emissions (trace w) =
    [ ("start", JArray [JElem A]);
      ("end", JUndefined);
      ("changed",
       JObject [ ("items", JArray [JElem B; JElem C; JElem A]);
                 ("result", JObject [("item", JElem A); ("before", JNull)]) ]) ] /\
  registry w = [(Elem 10, "mousedown", LDelegate 0 10 ".item ")] /\
  interaction (this w) = None.
Proof. vm_compute. auto. Qed.

(** Pick up B by its grip, release without moving: [end], no [changed]. *)
Example scenario_release_without_moving :
  let w := run ready [ Dispatch (Elem 10) "mousedown" (at_ 12 15);
                       Dispatch DocumentBody "mouseup" (at_ B 15);
                       Fulfil 0 ] in
  ListPage.rows (page w) = [A; B; C] /\
  emissions (trace w) = [("start", JArray [JElem B]); ("end", JUndefined)].
Proof. vm_compute. auto. Qed.

(** Pick up A, drag until the pointer leaves the window: the order is
    [A, B, C] again, [end], no [changed]. *)
Example scenario_leaving_the_window :
  let w := run overC [ Dispatch Window "mouseout" (leaving (Some 0)); Fulfil 0 ] in
  ListPage.rows (page overC) = [B; C; A] /\
  ListPage.rows (page w) = [A; B; C] /\
  emissions (trace w) = [("start", JArray [JElem A]); ("end", JUndefined)] /\
  registry w = [(Elem 10, "mousedown", LDelegate 0 10 ".item ")].
Proof. vm_compute. auto. Qed.

(** A release followed by [destroy()] before the drop's promise fulfils,
    then [init()], a new pickup, and only then the abort's promise: the
    stale continuation ends the second gesture, whose wide listeners stay
    attached. *)
Example scenario_stale_continuation :
  let w := run dragging [ Dispatch DocumentBody "mouseup" (at_ A 5);
                          Destroy; Init; Fulfil 0;
                          Dispatch (Elem 10) "mousedown" (at_ B 15);
                          Fulfil 0 ] in
  emissions (trace w) =
    [ ("start", JArray [JElem A]); ("end", JUndefined);
      ("start", JArray [JElem B]); ("end", JUndefined) ] /\
  interaction (this w) = None /\
  In (DocumentBody, "mouseup", LEnd) (registry w).
Proof. vm_compute. auto 10. Qed.

(** ** The theorems at work on the list [A, B, C] *)

Lemma dragging_holds : Dragging dragging 0 held.
Proof. split; reflexivity. Defined.

Lemma overC_holds : Dragging overC 0 heldOverC.
Proof. split; reflexivity. Defined.

Lemma pickup_while_dragging_is_ignored_witness :
  interaction (this dragging) = Some 0 /\
  onInteractionStart (at_ B 15) dragging = Returned tt dragging.
Proof.
  split; [reflexivity|].
  refine (proj1 (pickup_while_dragging_is_ignored dragging (at_ B 15) 0 _)).
  reflexivity.
Defined.

Lemma end_fires_once_per_gesture_witness :
  Dragging dragging 0 held /\
  emissions (trace (world_of (fulfil 0 (world_of (endGesture (LeftWindow (leaving (Some 0)))
                                                   dragging))))) =
    [("start", JArray [JElem A]); ("end", JUndefined)].
Proof.
  split; [split; reflexivity|].
  refine (proj1 (proj2 (proj2 (proj2
    (end_fires_once_per_gesture dragging 0 held (LeftWindow (leaving (Some 0))) _ _))))).
  - split; reflexivity.
  - intros e E. injection E as <-. reflexivity.
Defined.

Lemma accepted_pickup_emits_start_witness :
  Idle ready /\ target (at_ 12 15) = Some 12 /\
  emissions (trace (world_of (onInteractionStart (at_ 12 15) ready))) =
    [("start", JArray [JElem B])].
Proof.
  split; [reflexivity|]. split; [reflexivity|].
  refine (proj1 (proj2 (accepted_pickup_emits_start ready (at_ 12 15) 12 _ _)));
    reflexivity.
Defined.

(** C3, as the claim has it, fails: the payload of [start] is not the
    dragged item itself.  On the list [A, B, C], a pointer-down on A while
    idle is accepted, the dragged item is A, and [start] is emitted with
    the array [[A]], not with A. *)
Lemma start_payload_is_not_the_item :
  Idle ready /\
  target (at_ A 5) = Some A /\
  pickedItem ready A = Some A /\
  emissions (trace (world_of (onInteractionStart (at_ A 5) ready))) =
    [("start", JArray [JElem A])] /\
  ~ In ("start", JElem A)
       (emissions (trace (world_of (onInteractionStart (at_ A 5) ready)))).
Proof.
  repeat split; try reflexivity.
  vm_compute. intros [E|[]]. discriminate E.
Qed.

Lemma gesture_end_is_sequential_witness :
  Dragging overC 0 heldOverC /\
  trace (world_of (fulfil 0 (world_of (onDragEnd (Some (at_ A 25)) overC)))) =
    trace overC ++
    [ EOff DocumentBody "mousemove" LMove;
      EOff DocumentBody "mouseup" LEnd;
      EOff Window "mouseout" LMouseOut;
      EOff Window "scroll" LScroll;
      EDrop 0 0 25;
      EThen {| p_ref := 0; p_kind := ByDrop |};
      EFulfilled {| p_ref := 0; p_kind := ByDrop |};
      ESetInteraction None;
      EEmit "end" JUndefined;
      EEmit "changed"
        (JObject [ ("items", JArray [JElem B; JElem C; JElem A]);
                   ("result", JObject [("item", JElem A); ("before", JNull)]) ]) ].
Proof.
  split; [split; reflexivity|].
  pose proof (gesture_end_is_sequential overC 0 heldOverC (Some (at_ A 25)) overC_holds)
    as (T1 & _ & _ & _ & _ & T2 & _).
  cbv zeta in T1, T2. change (List.length (reactions overC)) with 0 in T2.
  rewrite T2, T1. reflexivity.
Defined.

Lemma changed_carries_fresh_items_and_result_witness :
  Dragging overC 0 heldOverC /\
  emissions (trace (world_of (fulfil 0 (world_of (onDragEnd (Some (at_ A 25)) overC))))) =
    [ ("start", JArray [JElem A]);
      ("end", JUndefined);
      ("changed",
       JObject [ ("items", JArray [JElem B; JElem C; JElem A]);
                 ("result", JObject [("item", JElem A); ("before", JNull)]) ]) ].
Proof.
  split; [split; reflexivity|].
  refine (changed_carries_fresh_items_and_result overC 0 heldOverC (at_ A 25) _ _).
  - split; reflexivity.
  - reflexivity.
Defined.

Lemma mouseout_aborts_only_towards_html_witness :
  Dragging overC 0 heldOverC /\
  findOne (page overC) "html" = Some 0 /\
  onMouseOut (leaving (Some 0)) overC = onDragEnd None overC /\
  onMouseOut (leaving (Some 10)) overC = Returned tt overC /\
  onMouseOut (leaving None) overC = Returned tt overC.
Proof.
  split; [split; reflexivity|]. split; [reflexivity|].
  split; [|split].
  - refine (proj1 (proj1 (proj2
      (mouseout_aborts_only_towards_html overC 0 heldOverC (leaving (Some 0)) 0 _ _)) _));
      try reflexivity. split; reflexivity.
  - refine (proj2 (proj2
      (mouseout_aborts_only_towards_html overC 0 heldOverC (leaving (Some 10)) 0 _ _)) _);
      try reflexivity; [split; reflexivity | discriminate].
  - refine (proj2 (proj2
      (mouseout_aborts_only_towards_html overC 0 heldOverC (leaving None) 0 _ _)) _);
      try reflexivity; [split; reflexivity | discriminate].
Defined.

Lemma idle_handlers_do_nothing_witness :
  Idle ready /\
  onDragMove (at_ A 5) ready = Returned tt ready /\
  onDragEnd (Some (at_ A 5)) ready = Returned tt ready /\
  onScroll ready = Returned tt ready.
Proof.
  split; [reflexivity|].
  refine (idle_handlers_do_nothing ready (at_ A 5) (Some (at_ A 5)) _). reflexivity.
Defined.

Lemma destroy_aborts_and_undelegates_witness :
  Dragging overC 0 heldOverC /\
  registry (world_of (destroy overC)) = [] /\
  emissions (trace (world_of (fulfil 0 (world_of (destroy overC))))) =
    [("start", JArray [JElem A]); ("end", JUndefined)] /\
  Idle ready /\
  destroy ready = Returned tt (undelegated ready).
Proof.
  split; [split; reflexivity|]. split; [reflexivity|]. split.
  - refine (proj1 (proj2 (proj2 (proj2 (proj2 (proj2
      (proj1 (destroy_aborts_and_undelegates overC) 0 heldOverC _))))))).
    split; reflexivity.
  - split; [reflexivity|].
    refine (proj1 (proj2 (destroy_aborts_and_undelegates ready) _)). reflexivity.
Defined.

Lemma init_keeps_one_delegate_witness :
  Consistent ready /\
  delegates (registry (run ready [Init])) = [(Elem 10, "mousedown", LDelegate 1 10 ".item ")] /\
  List.length (delegates (registry (run ready [Init; Init; Init]))) = 1.
Proof.
  assert (C : Consistent ready) by apply reachable_consistent.
  split; [exact C|]. split.
  - exact (proj1 (proj2 (init_keeps_one_delegate ready C))).
  - exact (proj1 (proj2 (proj2 (proj2 (proj2 (proj2 (init_keeps_one_delegate ready C)))))) 2).
Defined.

Lemma pickup_without_item_is_not_guarded_witness :
  Idle ready /\
  target (at_ 20 5) = Some 20 /\
  matches (page ready) 20 ".item" = false /\
  closest (page ready) 20 ".item" = None /\
  emissions (trace (world_of (onInteractionStart (at_ 20 5) ready))) =
    [("start", JArray [JNull])] /\
  interaction (this (world_of (onInteractionStart (at_ 20 5) ready))) = Some 0.
Proof.
  repeat (split; [reflexivity|]).
  refine (proj1 (proj2
    (pickup_without_item_is_not_guarded ready (at_ 20 5) 20 _ _ _ _))); reflexivity.
Defined.

(** * Properties of the fetch client *)

Section FetchProperties.
Import Fetch.
Variable stringify : Value -> string.
Variable extend : Headers -> Headers -> Headers.

Lemma lookup_assign (key value : string) (h : Headers) :
  lookup key (assign key value h) = Some value.
Proof.
  induction h as [|[k v] h IH]; simpl.
  - now rewrite String.eqb_refl.
  - destruct (String.eqb k key) eqn:E; simpl; rewrite ?String.eqb_refl, ?E; auto.
Qed.

(** X10.  A failure is reported by one [console.error] and one negative
    toast with the client's failure message, unless
    [options.handleGenericRequestErrors] is [false]: then nothing is logged
    and no toast is added, for a failed request and for a body that is no
    JSON alike.  An answer never raises the failure toast: its only toast
    is the message the answer carries. *)
Theorem failures_are_reported_unless_silenced client url options error :
  let toast := ToastAdded (Str (failureMessage client)) (Str "negative") Undefined in
  filter isReport (request stringify extend client url options (Failed error)) =
    (if notFalse (handleGenericRequestErrors options)
     then [ConsoleError "Request failed (generic)" error; toast] else []) /\
  filter isReport (request stringify extend client url options (NotJson error)) =
    (if notFalse (handleGenericRequestErrors options)
     then [ConsoleError "Request failed (json)" error; toast] else []) /\
  (forall response,
     filter isReport (request stringify extend client url options (Answered response)) =
     match message response with
     | Some m => [ToastAdded (text m) (impact m) (action m)]
     | None => []
     end).
Proof.
  cbv zeta. unfold request, begun, finished. repeat split; try intros response;
    rewrite !filter_app;
    destruct (showsLoader client options); cbn [filter isReport app handled];
    try (destruct (notFalse _); reflexivity);
    destruct (message response), (truthy (redirect response)); reflexivity.
Qed.

(** X11.  When [options.json] is given, the body sent is its
    [JSON.stringify], whatever [options.data] holds, and the [Content-Type]
    header is the JSON one, whatever [options.headers] holds and whatever
    [extend] does with them; if no method is given and the JSON text is not
    empty, the method is [post]. *)
Theorem json_replaces_data_and_content_type options :
  truthy (json options) = true ->
  init_body (requestInit stringify extend options) = Str (stringify (json options)) /\
  lookup "Content-Type" (init_headers (requestInit stringify extend options)) =
    Some "application/json; charset=UTF-8" /\
  (truthy (method options) = false ->
   stringify (json options) <> "" ->
   init_method (requestInit stringify extend options) = Str "post").
Proof.
  intros Hj. unfold requestInit. cbn [init_body init_headers init_method]. rewrite Hj.
  split; [reflexivity|]. split; [apply lookup_assign|].
  intros Hm Hs. rewrite Hm. cbn [truthy].
  destruct (String.eqb (stringify (json options)) "") eqn:E; [|reflexivity].
  apply String.eqb_eq in E. contradiction.
Qed.

(** X12.  The request always carries a method: the one given, if it is
    truthy, and else [post] or [get]; it is [get] exactly when the body
    sent is falsy, which includes the empty string. *)
Theorem method_is_always_set options :
  let init := requestInit stringify extend options in
  truthy (init_method init) = true /\
  (truthy (method options) = true -> init_method init = method options) /\
  (truthy (method options) = false ->
   init_method init = (if truthy (init_body init) then Str "post" else Str "get")).
Proof.
  cbv zeta. unfold requestInit. cbn [init_body init_method].
  destruct (truthy (method options)) eqn:Hm.
  - repeat split; try discriminate. exact Hm.
  - repeat split; try discriminate.
    destruct (truthy (if truthy (json options) then _ else _)); reflexivity.
Qed.
End FetchProperties.

(** * Properties of mounting *)

Section MountProperties.
Import Mount.
Variable Data : Type.
Variable trim : string -> string.
Variable parse : string -> option Data.
Variable emptyObject : Data.
Variable merge : Data -> Data -> Data.
Variable renders : Data -> Node -> Node -> bool.
Variable mounts : Node -> bool.


(** X14.  [mount] catches nothing: when the constructor or [init] of one
    element throws, the elements before it are mounted, [mount] is left by
    the exception, and no element after it is ever constructed. *)
Theorem mount_stops_at_first_failure before e after :
  forallb mounts before = true ->
  mounts e = false ->
  mount Data mounts (before ++ e :: after) = (map Mounted before, false).
Proof.
  intros Hb He. induction before as [|x l IH]; cbn [app mount map].
  - rewrite He. reflexivity.
  - cbn [forallb] in Hb. apply andb_true_iff in Hb. destruct Hb as [Hx Hl].
    rewrite Hx, (IH Hl). reflexivity.
Qed.
End MountProperties.

(** * The further properties at work *)

Lemma guarded_events_are_ignored_witness :
  target (leaving (Some 0)) <> None /\
  Idle ready /\
  onMouseOut (leaving (Some 0)) ready = Returned tt ready /\
  target {| target := None; relatedTarget := None; screenX := 0; screenY := 5 |} = None /\
  onInteractionStart
    {| target := None; relatedTarget := None; screenX := 0; screenY := 5 |} ready =
  Returned tt ready.
Proof.
  split; [discriminate|]. split; [reflexivity|]. split.
  - refine (proj2 (guarded_events_are_ignored ready (leaving (Some 0))) _). reflexivity.
  - split; [reflexivity|].
    refine (proj1 (guarded_events_are_ignored ready _) _). reflexivity.
Defined.

Lemma moves_only_reach_the_interaction_witness :
  Dragging dragging 0 held /\
  world_of (onDragMove (at_ A 25) dragging) = overC /\
  ListPage.rows (page (world_of (onDragMove (at_ A 25) dragging))) = [B; C; A] /\
  registry (world_of (onDragMove (at_ A 25) dragging)) = registry dragging.
Proof.
  split; [split; reflexivity|].
  rewrite (proj1 (moves_only_reach_the_interaction dragging 0 held (at_ A 25) dragging_holds)).
  repeat split.
Defined.



Lemma json_replaces_data_and_content_type_witness :
  Fetch.truthy (Fetch.json Fetch.withJson) = true /\
  Fetch.requestInit Fetch.stringify0 Fetch.extend0 Fetch.withJson =
  {| Fetch.init_body := Fetch.Str "{}";
     Fetch.init_cache := "no-cache";
     Fetch.init_credentials := "include";
     Fetch.init_headers :=
       [ ("Content-Type", "application/json; charset=UTF-8");
         ("Accept", "application/json");
         ("X-Requested-With", "XMLHttpRequest") ];
     Fetch.init_method := Fetch.Str "post" |} /\
  Fetch.init_method (Fetch.requestInit Fetch.stringify0 Fetch.extend0 Fetch.withJson) =
  Fetch.Str "post".
Proof.
  split; [reflexivity|]. split; [reflexivity|].
  refine (proj2 (proj2 (json_replaces_data_and_content_type
                          Fetch.stringify0 Fetch.extend0 Fetch.withJson _)) _ _).
  - reflexivity.
  - reflexivity.
  - discriminate.
Defined.

Lemma method_is_always_set_witness :
  Fetch.truthy (Fetch.method Fetch.plain) = false /\
  Fetch.init_method (Fetch.requestInit Fetch.stringify0 Fetch.extend0 Fetch.plain) =
  Fetch.Str "get".
Proof.
  split; [reflexivity|].
  refine (proj2 (proj2 (method_is_always_set Fetch.stringify0 Fetch.extend0 Fetch.plain)) _).
  reflexivity.
Defined.

Lemma mount_stops_at_first_failure_witness :
  forallb (fun n => Nat.leb n 2) [1; 2] = true /\
  Nat.leb 3 2 = false /\
  Mount.mount unit (fun n => Nat.leb n 2) [1; 2; 3; 1] =
  ([Mount.Mounted 1; Mount.Mounted 2], false).
Proof.
  split; [reflexivity|]. split; [reflexivity|].
  refine (mount_stops_at_first_failure unit (fun n => Nat.leb n 2) [1; 2] 3 [1] _ _);
    reflexivity.
Defined.

(** * What the code does against the claims *)

(** C4.  The order of a gesture's end is broken by a continuation that
    outlives its gesture.  In [Stale.secondGesture], reached from a new
    controller, the second gesture is under way: the controller holds
    interaction 1, the four wide listeners are attached, and the abort's
    promise of interaction 0 still waits.  When that promise fulfils, its
    continuation clears the interaction and emits [end]: the second gesture
    has ended with no listener detached before, no [drop] or [abort] of its
    interaction, and the four wide listeners still attached after. *)
Theorem stale_continuation_ends_gesture_without_detach :
  let w := Stale.secondGesture in
  let w' := step w (Fulfil 0) in
  interaction (this w) = Some 1 /\
  reactions w = [{| p_ref := 0; p_kind := ByAbort |}] /\
  trace w' = trace w ++
    [ EFulfilled {| p_ref := 0; p_kind := ByAbort |};
      ESetInteraction None;
      EEmit "end" JUndefined ] /\
  interaction (this w') = None /\
  registry w' = registry w /\
  (forall x, In x wideListeners -> In x (registry w')).
Proof.
  vm_compute. repeat split. tauto.
Qed.

(** C5.  The payload of [changed] is wrong at a continuation that outlives
    its gesture.  In [Stale.secondGestureOverC] the second gesture has moved
    A over C, so that its anchor differs from the original one, and the
    abort's promise of the first gesture still waits.  When that promise
    fulfils, the one [changed] event of the second gesture is emitted with
    the items of the preview, read during the drag, and with [undefined] for
    [result], the value of the abort's promise: no [drop] of the second
    gesture was ever called. *)
Theorem stale_continuation_emits_changed_without_result :
  let w := Stale.secondGestureOverC in
  let w' := step w (Fulfil 0) in
  interaction (this w) = Some 1 /\
  ListPage.rows (page w) = [B; C; A] /\
  trace w' = trace w ++
    [ EFulfilled {| p_ref := 0; p_kind := ByAbort |};
      ESetInteraction None;
      EEmit "end" JUndefined;
      EEmit "changed"
        (JObject [ ("items", JArray [JElem B; JElem C; JElem A]);
                   ("result", JUndefined) ]) ] /\
  (forall x y, ~ In (EDrop 1 x y) (trace w')) /\
  interaction (this w') = None.
Proof.
  vm_compute. repeat split.
  intros x y Hin.
  repeat (destruct Hin as [Hin|Hin]; [discriminate Hin|]). contradiction.
Qed.



(** * Properties of the fetch client, with its exceptions *)

Section FetchThrowingProperties.
Import Fetch.
Import FetchThrowing.
Variable stringify : Value -> option string.
Variable extend : Headers -> Headers -> Headers.

(** When [JSON.stringify] returns and the body is not [null], this is
    [Fetch.request]. *)
Lemma request_returns client url options reply reply' :
  stringifyThrows stringify options = false ->
  match reply with
  | RequestFailed error => reply' = Failed error
  | BodyNotJson error => reply' = NotJson error
  | BodyParsed (Some response) => reply' = Answered response
  | BodyParsed None => False
  end ->
  FetchThrowing.request stringify extend client url options reply =
  (Fetch.request (text stringify) extend client url options reply', false).
Proof.
  intros Hs Hr. unfold FetchThrowing.request, Fetch.request. rewrite Hs.
  destruct reply as [error|error|[response|]]; try contradiction; subst reply'; reflexivity.
Qed.

(** X8.  When [request] returns (its [JSON.stringify], if called, does
    not throw), then whatever the network replies, a body [null] whose
    handler throws included, the loader is started before anything else and
    ended after everything else if [options.loading] is truthy and the
    client has a loader, and is not touched otherwise.  When
    [JSON.stringify] throws, [request] throws with the loader started, if it
    is shown, and never ended, and [fetch] is not called. *)
Theorem loader_is_ended_unless_stringify_throws client url options reply :
  let started :=
    if showsLoader client options then [LoaderStart (loading options)] else [] in
  let ended := if showsLoader client options then [LoaderEnd] else [] in
  (stringifyThrows stringify options = true ->
   FetchThrowing.request stringify extend client url options reply = (started, true)) /\
  (stringifyThrows stringify options = false ->
   exists middle,
     FetchThrowing.request stringify extend client url options reply =
       (started ++ middle ++ ended, false) /\
     filter isLoader middle = []).
Proof.
  cbv zeta. unfold FetchThrowing.request. split; intros Hs; rewrite Hs; [reflexivity|].
  exists (Fetched url (requestInit (text stringify) extend options) ::
          FetchThrowing.handled client options reply).
  unfold begun, finished. split.
  - rewrite <- app_assoc. reflexivity.
  - destruct reply as [error|error|[response|]];
      cbn [FetchThrowing.handled Fetch.handled filter isLoader].
    + destruct (notFalse _); reflexivity.
    + destruct (notFalse _); reflexivity.
    + destruct (message response), (truthy (redirect response)); reflexivity.
    + reflexivity.
Qed.

(** X9.  The promise [request] returns is settled at most once: resolved
    with the [ok], [status] and [data] of the answer when the body was
    parsed and is not [null], rejected when the request failed or the body
    was no JSON.  It is never settled when the body is the JSON text
    [null], whose handler throws before it calls [resolve]; and when
    [JSON.stringify] throws there is no promise at all. *)
Theorem promise_settles_at_most_once client url options reply :
  filter isSettlement (fst (FetchThrowing.request stringify extend client url options reply)) =
  if stringifyThrows stringify options then []
  else match reply with
       | BodyParsed (Some response) =>
           [Resolved {| resolved_ok := ok response;
                        resolved_status := status response;
                        resolved_data := response_data response |}]
       | BodyParsed None => []
       | _ => [Rejected]
       end.
Proof.
  unfold FetchThrowing.request.
  destruct (stringifyThrows stringify options); cbn [fst].
  - destruct (showsLoader client options); reflexivity.
  - unfold begun, finished. rewrite !filter_app.
    destruct (showsLoader client options); cbn [filter isSettlement app];
      destruct reply as [error|error|[response|]];
      cbn [FetchThrowing.handled Fetch.handled filter];
      try reflexivity;
      try (destruct (notFalse _); reflexivity);
      destruct (message response), (truthy (redirect response)); reflexivity.
Qed.
End FetchThrowingProperties.

Lemma loader_is_ended_unless_stringify_throws_witness :
  FetchThrowing.stringifyThrows FetchThrowing.stringify0 FetchThrowing.cyclic = true /\
  FetchThrowing.request FetchThrowing.stringify0 Fetch.extend0 Fetch.client0 "/save"
    FetchThrowing.cyclic (FetchThrowing.BodyParsed None) =
  ([Fetch.LoaderStart (Fetch.Str "Saving")], true) /\
  FetchThrowing.stringifyThrows FetchThrowing.stringify0 Fetch.withJson = false /\
  fst (FetchThrowing.request FetchThrowing.stringify0 Fetch.extend0 Fetch.client0 "/save"
         Fetch.withJson (FetchThrowing.BodyParsed None)) =
  [ Fetch.LoaderStart (Fetch.Str "Saving");
    Fetch.Fetched "/save"
      (Fetch.requestInit (FetchThrowing.text FetchThrowing.stringify0) Fetch.extend0
         Fetch.withJson);
    Fetch.LoaderEnd ].
Proof.
  split; [reflexivity|]. split.
  - refine (proj1 (loader_is_ended_unless_stringify_throws FetchThrowing.stringify0
                     Fetch.extend0 Fetch.client0 "/save" FetchThrowing.cyclic
                     (FetchThrowing.BodyParsed None)) _).
    reflexivity.
  - split; [reflexivity|].
    destruct (proj2 (loader_is_ended_unless_stringify_throws FetchThrowing.stringify0
                       Fetch.extend0 Fetch.client0 "/save" Fetch.withJson
                       (FetchThrowing.BodyParsed None)) eq_refl) as (middle & E & _).
    reflexivity.
Defined.
